(** * rvc-webui: the inference orchestration module [modules/models.py]

    A shallow embedding of [update_state_dict], [VC_MODEL] (constructor,
    [single], [get_index_path], [get_big_npy_path]), [load_embedder] and
    [load_model], together with the properties of the repository's
    specification that concern them.  [download_models] and [get_models]
    are left out: no property here depends on them.

    Conventions of the embedding.
    - A Python [dict] with string keys is a [gmap string _]; a [list] (or
      tuple) is a [list].  Python values stored in a checkpoint are [pyval].
    - A [float] is kept as its IEEE-754 binary64 bit pattern, a [torch]
      tensor as its shape and the flat list of its elements.
    - Strings are Rocq strings: the text handled is taken to be ASCII.
    - An exception is a value of [exn]; code that may raise returns a
      [result].  Code that reads or writes module globals or the output
      directory runs in the monad [M], which keeps the state reached when
      an exception is raised, as Python does.
    - [os.path] is the POSIX flavour ([posixpath]). *)

From stdpp Require Import gmap strings list fin_maps.
From Stdlib Require Import ZArith NArith Ascii String DecimalString DecimalPos.

Set Warnings "-register-all".
Local Open Scope string_scope.
Local Open Scope nat_scope.

(** ** Python values *)

Inductive pyval : Type :=
| PNone
| PBool (b : bool)
| PInt (z : Z)
| PFloat (bits : Z)
| PStr (s : string)
| PList (l : list pyval)
| PDict (d : gmap string pyval)
| PTensor (shape : list N) (data : list pyval).

(** ** Exceptions and results *)

Inductive exn : Type :=
| IndexError
| KeyError (key : pyval)
| TypeError
| AttributeError
| RuntimeError
| Exception (msg : string)
| UnsupportedEmbedder (name : pyval)
    (* [Exception(f"Not supported embedder: {name}")] *)
| ExternalError (what : string).
    (* raised inside torch, fairseq, pydub or the repository's pipeline *)

Inductive result (A : Type) : Type :=
| Ok (a : A)
| Err (e : exn).
Arguments Ok {A} a.
Arguments Err {A} e.

Definition rbind {A B} (r : result A) (k : A → result B) : result B :=
  match r with
  | Ok a => k a
  | Err e => Err e
  end.

Declare Scope py_scope.
Delimit Scope py_scope with py.
Notation "'let?' x := r 'in' k" := (rbind r (fun x => k))
  (at level 10, x pattern, r at level 100, k at level 200) : py_scope.
Local Open Scope py_scope.

(** ** Built-in operations on values *)

(** [d[k]] on a [dict] with string keys. *)
Definition dict_getitem (d : gmap string pyval) (k : string) : result pyval :=
  match d !! k with
  | Some v => Ok v
  | None => Err (KeyError (PStr k))
  end.

(** [d.get(k, default)]. *)
Definition dict_get (d : gmap string pyval) (k : string) (default : pyval) : pyval :=
  match d !! k with
  | Some v => v
  | None => default
  end.

(** [v[k]] for a string subscript [k]. *)
Definition getitem_str (v : pyval) (k : string) : result pyval :=
  match v with
  | PDict d => dict_getitem d k
  | PTensor _ _ => Err IndexError
  | _ => Err TypeError
  end.

(** [len(v)]. *)
Definition py_len (v : pyval) : result nat :=
  match v with
  | PList l => Ok (List.length l)
  | PStr s => Ok (String.length s)
  | PDict d => Ok (size d)
  | PTensor (d :: _) _ => Ok (N.to_nat d)
  | _ => Err TypeError
  end.

Definition numel (shape : list N) : nat :=
  foldr (fun d acc => N.to_nat d * acc) 1 shape.

Definition string_chars (s : string) : list pyval :=
  (fun c => PStr (String c EmptyString)) <$> list_ascii_of_string s.

(** [v[i]] for an integer subscript [i >= 0]. *)
Definition getitem_int (v : pyval) (i : nat) : result pyval :=
  match v with
  | PList l =>
      match l !! i with
      | Some x => Ok x
      | None => Err IndexError
      end
  | PStr s =>
      match string_chars s !! i with
      | Some x => Ok x
      | None => Err IndexError
      end
  | PDict _ => Err (KeyError (PInt (Z.of_nat i)))
  | PTensor (d :: sh) data =>
      if decide (i < N.to_nat d)
      then Ok (PTensor sh (take (numel sh) (drop (i * numel sh) data)))
      else Err IndexError
  | PTensor [] _ => Err IndexError
  | _ => Err TypeError
  end.

(** [v[k] = x] for a string subscript: the container after the store. *)
Definition setitem_str (v : pyval) (k : string) (x : pyval) : result pyval :=
  match v with
  | PDict d => Ok (PDict (<[k := x]> d))
  | PTensor _ _ => Err IndexError
  | _ => Err TypeError
  end.

(** ** [update_state_dict] *)

Definition keys : list string :=
  [ "spec_channels"; "segment_size"; "inter_channels"; "hidden_channels";
    "filter_channels"; "n_heads"; "n_layers"; "kernel_size"; "p_dropout";
    "resblock"; "resblock_kernel_sizes"; "resblock_dilation_sizes";
    "upsample_rates"; "upsample_initial_channel"; "upsample_kernel_sizes";
    "spk_embed_dim"; "gin_channels"; "emb_channels"; "sr" ].

(** [enumerate(xs)], counting from [start]. *)
Fixpoint enumerate_from {A} (start : nat) (xs : list A) : list (nat * A) :=
  match xs with
  | [] => []
  | x :: xs' => (start, x) :: enumerate_from (S start) xs'
  end.

Definition enumerate {A} (xs : list A) : list (nat * A) := enumerate_from 0 xs.

(** The state of the loop: the dictionary being filled and the counter [n]
    of fields that took no array slot.  An exception leaves both as they
    were when it was raised. *)
Record loop_state : Type := LoopState {
  ls_dict : gmap string pyval;
  ls_n : nat;
  ls_exn : option exn
}.

(** [state_dict["params"][key] = x]. *)
Definition store_param (state_dict : gmap string pyval) (key : string) (x : pyval)
  : result (gmap string pyval) :=
  let? params := dict_getitem state_dict "params" in
  let? params' := setitem_str params key x in
  Ok (<["params" := params']> state_dict).

(** One turn of the [for i, key in enumerate(keys)] body; [Ok] carries the
    dictionary and [n] at the end of the turn.  [n] is 0 until the turn of
    [emb_channels], the 18th key, and at most 1 after it, so [i - n] is
    never negative. *)
Definition update_step (state_dict : gmap string pyval) (n : nat)
    (i : nat) (key : string) : result (gmap string pyval * nat) :=
  let i := i - n in
  let? config := dict_getitem state_dict "config" in
  let? len := py_len config in
  if negb (Nat.eqb len 19) && String.eqb key "emb_channels" then
    (* backward compat. *)
    let? sd := store_param state_dict key (PInt 256) in
    Ok (sd, n + 1)
  else
    let? config := dict_getitem state_dict "config" in
    let? x := getitem_int config i in
    let? sd := store_param state_dict key x in
    Ok (sd, n).

Fixpoint update_loop (iks : list (nat * string))
    (state_dict : gmap string pyval) (n : nat) : loop_state :=
  match iks with
  | [] => LoopState state_dict n None
  | (i, key) :: rest =>
      match update_step state_dict n i key with
      | Ok (sd, n') => update_loop rest sd n'
      | Err e => LoopState state_dict n (Some e)
      end
  end.

(** The test ["params" in state_dict and state_dict["params"] is not None]. *)
Definition has_params (state_dict : gmap string pyval) : bool :=
  match state_dict !! "params" with
  | None => false
  | Some PNone => false
  | Some _ => true
  end.

(** [update_state_dict(state_dict)]: the dictionary after the call, the
    final value of the local [n], and the exception raised, if any. *)
Definition update_state_dict (state_dict : gmap string pyval) : loop_state :=
  if has_params state_dict then LoopState state_dict 0 None
  else update_loop (enumerate keys) (<["params" := PDict ∅]> state_dict) 0.

(** ** Strings: [os.path], [re.match(r"\d+", _)], [int(_)], [str(_)] *)

Definition sep : ascii := "/"%char.
Definition extsep : ascii := "."%char.

(** [s.startswith("/")] and [s.endswith("/")]. *)
Definition starts_with_sep (s : string) : bool :=
  match s with
  | String c _ => Ascii.eqb c sep
  | EmptyString => false
  end.

Fixpoint ends_with_sep (s : string) : bool :=
  match s with
  | EmptyString => false
  | String c EmptyString => Ascii.eqb c sep
  | String _ s' => ends_with_sep s'
  end.

(** One turn of the loop of [posixpath.join]. *)
Definition join_step (path b : string) : string :=
  if starts_with_sep b then b
  else if String.eqb path "" || ends_with_sep path then path ++ b
  else path ++ "/" ++ b.

(** [os.path.join(a, *p)]. *)
Definition os_path_join (a : string) (p : list string) : string :=
  foldl join_step a p.

(** [s.rfind(c)], with [-1] when [c] does not occur; [i] is the index of
    the first character of [s] in the whole string. *)
Fixpoint rfind_from (c : ascii) (s : string) (i : Z) (last : Z) : Z :=
  match s with
  | EmptyString => last
  | String x s' => rfind_from c s' (i + 1) (if Ascii.eqb x c then i else last)
  end.

Definition rfind (s : string) (c : ascii) : Z := rfind_from c s 0 (-1).

(** The slices [s[i:]] and [s[:i]] for [i >= 0]. *)
Fixpoint slice_from (i : nat) (s : string) : string :=
  match i, s with
  | O, _ => s
  | S i', String _ s' => slice_from i' s'
  | S _, EmptyString => EmptyString
  end.

Fixpoint slice_to (i : nat) (s : string) : string :=
  match i, s with
  | O, _ => EmptyString
  | S i', String c s' => String c (slice_to i' s')
  | S _, EmptyString => EmptyString
  end.

(** [os.path.basename(p)]. *)
Definition os_path_basename (p : string) : string :=
  let i := (rfind p sep + 1)%Z in
  slice_from (Z.to_nat i) p.

(** The [while filenameIndex < dotIndex] loop of [genericpath._splitext]:
    [true] when a character other than the dot is met before [dotIndex]. *)
Fixpoint name_before_dot (p : string) (filenameIndex : nat) (turns : nat) : bool :=
  match turns with
  | O => false
  | S turns' =>
      match String.get filenameIndex p with
      | Some c =>
          if negb (Ascii.eqb c extsep) then true
          else name_before_dot p (S filenameIndex) turns'
      | None => true
      end
  end.

(** [os.path.splitext(p)]. *)
Definition os_path_splitext (p : string) : string * string :=
  let sepIndex := rfind p sep in
  let dotIndex := rfind p extsep in
  if (sepIndex <? dotIndex)%Z
     && name_before_dot p (Z.to_nat (sepIndex + 1))
          (Z.to_nat (dotIndex - (sepIndex + 1)))
  then (slice_to (Z.to_nat dotIndex) p, slice_from (Z.to_nat dotIndex) p)
  else (p, EmptyString).

Definition is_digit (c : ascii) : bool :=
  let n := nat_of_ascii c in
  Nat.leb 48 n && Nat.leb n 57.

(** The text matched by [re.match(r"\d+", s)], when there is a match. *)
Fixpoint leading_digits (s : string) : string :=
  match s with
  | String c s' => if is_digit c then String c (leading_digits s') else EmptyString
  | EmptyString => EmptyString
  end.

Definition re_match_digits (s : string) : option string :=
  match leading_digits s with
  | EmptyString => None
  | d => Some d
  end.

(** [int(d)] for a string of decimal digits. *)
Fixpoint int_of_digits_from (acc : N) (d : string) : N :=
  match d with
  | EmptyString => acc
  | String c d' =>
      int_of_digits_from (acc * 10 + (N_of_ascii c - 48))%N d'
  end.

Definition int_of_digits (d : string) : N := int_of_digits_from 0 d.

(** [str(z)] for an [int], as an f-string prints it. *)
Definition str_of_int (z : Z) : string :=
  NilZero.string_of_int (Z.to_int z).

(** ** The objects built by the module *)

(** A numpy array of samples, flattened. *)
Definition ndarray : Type := list Z.

Inductive net_class : Type :=
| SynthesizerTrnMs256NSFSid      (* takes a pitch contour *)
| SynthesizerTrnMs256NSFSidNono. (* takes none *)

(** A synthesizer network, known by how it was built: its class, the keyword
    arguments of its constructor, the weights loaded into it and whether it
    was cast to half precision. *)
Record synthesizer : Type := Synthesizer {
  syn_class : net_class;
  syn_kwargs : gmap string pyval;
  syn_weight : pyval;
  syn_half : bool
}.

(** The pipeline object [VC(tgt_sr, device, is_half)]. *)
Record pipeline : Type := Pipeline {
  vc_tgt_sr : pyval;
  vc_is_half : bool
}.

(** A loaded embedder, known by the file it was read from. *)
Record embedder : Type := Embedder {
  emb_path : string;
  emb_half : bool
}.

Record VC_MODEL : Type := Build_VC_MODEL {
  model_name : string;
  weight : gmap string pyval;
  tgt_sr : pyval;
  embedder_name : pyval;
  net_g : synthesizer;
  vc : pipeline;
  n_spk : pyval
}.

(** The arguments of one call [self.vc(...)] of the pipeline. *)
Record vc_call : Type := VcCall {
  call_vc : pipeline;
  call_embedder_model : option embedder;
  call_net_g : synthesizer;
  call_sid : Z;
  call_audio : ndarray;
  call_f0_up_key : Z;
  call_f0_method : string;
  call_faiss_index_file : string;
  call_big_npy_file : string;
  call_index_rate : Z;
  call_f0 : pyval;
  call_f0_file : string;
  call_embedder_name : pyval
}.

(** ** What the module takes from outside

    The configuration constants read at import time and the behaviour of
    the libraries and of the other modules of the repository.  A function
    that may raise gives a [result], or [Some e] for the exception of a
    call made for its effect.  What is outside answers the same way each
    time it is asked: the files under the models directory do not change
    while the module runs. *)
Record World : Type := Build_World {
  is_half : bool;                       (* [shared.is_half] *)
  MODELS_DIR : string;
  AUDIO_OUT_DIR : string;
  torch_load : string → result (gmap string pyval);
  synthesizer_init : net_class → gmap string pyval → option exn;
  load_state_dict : net_class → gmap string pyval → pyval → option exn;
  load_audio : string → Z → result ndarray;
  load_model_ensemble_and_task : string → option exn;
  vc_run : vc_call → result ndarray;    (* [VC.__call__] *)
  audio_segment : ndarray → pyval → option exn;
  os_path_exists : string → bool;          (* [os.path.exists] *)
  export_wav : string → option exn
}.

(** ** Module globals, the output directory and what was done *)

Inductive event : Type :=
| EvPrintLoad (name : pyval)            (* [print(f"load {name} embedder")] *)
| EvLoadEmbedder (path : string)        (* the embedder file is read *)
| EvPipeline (c : vc_call)              (* the pipeline is run *)
| EvExport (path : string) (frame_rate : pyval) (samples : ndarray).

Record state : Type := State {
  vc_model : option VC_MODEL;
  embedder_model : option embedder;
  loaded_embedder_model : string;
  out_dir : option (list string);  (* [os.listdir(AUDIO_OUT_DIR)]; [None]: no such directory *)
  trace : list event               (* oldest first *)
}.

(** The state when the module has just been imported. *)
Definition initial_state (out : option (list string)) : state :=
  State None None "" out [].

Definition M (A : Type) : Type := state → result A * state.

Definition ret {A} (a : A) : M A := fun st => (Ok a, st).
Definition raise {A} (e : exn) : M A := fun st => (Err e, st).
Definition bind {A B} (m : M A) (k : A → M B) : M B :=
  fun st =>
    match m st with
    | (Ok a, st') => k a st'
    | (Err e, st') => (Err e, st')
    end.
Definition lift {A} (r : result A) : M A := fun st => (r, st).
Definition check (o : option exn) : M unit :=
  fun st => match o with None => (Ok tt, st) | Some e => (Err e, st) end.
Definition get_state : M state := fun st => (Ok st, st).

Definition set_vc_model (m : VC_MODEL) (st : state) : state :=
  State (Some m) (embedder_model st) (loaded_embedder_model st)
        (out_dir st) (trace st).
Definition set_embedder (e : embedder) (name : string) (st : state) : state :=
  State (vc_model st) (Some e) name (out_dir st) (trace st).
Definition set_out_dir (entries : list string) (st : state) : state :=
  State (vc_model st) (embedder_model st) (loaded_embedder_model st)
        (Some entries) (trace st).
Definition add_event (ev : event) (st : state) : state :=
  State (vc_model st) (embedder_model st) (loaded_embedder_model st)
        (out_dir st) (trace st ++ [ev]).

Definition modify (f : state → state) : M unit := fun st => (Ok tt, f st).
Definition emit (ev : event) : M unit := modify (add_event ev).

Notation "'do' x <- m ; k" := (bind m (fun x => k))
  (at level 10, x pattern, m at level 100, k at level 200) : py_scope.
Notation "m ;; k" := (bind m (fun _ => k))
  (at level 100, k at level 200, right associativity) : py_scope.

(** ** More built-in operations *)

(** The bit pattern of the float [1.0]. *)
Definition float_one : Z := 0x3FF0000000000000.

(** [x == 1] for an element of a tensor or a plain number. *)
Definition scalar_is_one (x : pyval) : bool :=
  match x with
  | PBool b => b
  | PInt z => (z =? 1)%Z
  | PFloat bits => (bits =? float_one)%Z
  | _ => false
  end.

(** The truth value of [v == 1], as [if v == 1:] takes it. *)
Definition eq_one_truth (v : pyval) : result bool :=
  match v with
  | PTensor _ [x] => Ok (scalar_is_one x)
  | PTensor _ _ => Err RuntimeError
  | _ => Ok (scalar_is_one v)
  end.

(** [v.shape]. *)
Definition py_shape (v : pyval) : result (list N) :=
  match v with
  | PTensor shape _ => Ok shape
  | _ => Err AttributeError
  end.

(** [xs[0]] on a shape. *)
Definition shape_first (shape : list N) : result N :=
  match shape with
  | d :: _ => Ok d
  | [] => Err IndexError
  end.

(** [k in v] for a string [k] and a dict [v]; the module applies it only
    to a value that was subscripted with a string before. *)
Definition contains_str (v : pyval) (k : string) : result bool :=
  match v with
  | PDict d => Ok (bool_decide (is_Some (d !! k)))
  | _ => Err TypeError
  end.

(** The keyword arguments held by a mapping that a call unpacks. *)
Definition as_kwargs (v : pyval) : result (gmap string pyval) :=
  match v with
  | PDict d => Ok d
  | _ => Err TypeError
  end.

(** [hash(v)] raises for lists and dicts. *)
Definition hashable (v : pyval) : bool :=
  match v with
  | PList _ | PDict _ => false
  | _ => true
  end.

(** ** [VC_MODEL.__init__] *)

Section Models.
Context (W : World).

(** The keyword arguments of the constructor call: the entries of [params],
    and [is_half=is_half] for the class that takes it. *)
Definition build_kwargs (cls : net_class) (params : pyval)
  : result (gmap string pyval) :=
  let? kw := as_kwargs params in
  match cls with
  | SynthesizerTrnMs256NSFSid =>
      match kw !! "is_half" with
      | Some _ => Err TypeError   (* keyword given twice *)
      | None => Ok (<["is_half" := PBool (is_half W)]> kw)
      end
  | SynthesizerTrnMs256NSFSidNono => Ok kw
  end.

Definition result_of (o : option exn) : result unit :=
  match o with
  | None => Ok tt
  | Some e => Err e
  end.

Definition VC_MODEL_init (model_name : string) (state_dict : gmap string pyval)
  : result VC_MODEL :=
  let r := update_state_dict state_dict in
  let? _ := result_of (ls_exn r) in
  let state_dict := ls_dict r in
  let? params := dict_getitem state_dict "params" in
  let? tgt_sr := getitem_str params "sr" in
  let f0 := dict_get state_dict "f0" (PInt 1) in
  let embedder_name := dict_get state_dict "embedder_name" (PStr "hubert_base") in
  (* the right-hand side of the assignment is evaluated first *)
  let? weight := dict_getitem state_dict "weight" in
  let? emb_g := getitem_str weight "emb_g.weight" in
  let? shape := py_shape emb_g in
  let? dim := shape_first shape in
  let? params := dict_getitem state_dict "params" in
  let? params := setitem_str params "spk_embed_dim" (PInt (Z.of_N dim)) in
  let state_dict := <["params" := params]> state_dict in
  let? params := dict_getitem state_dict "params" in
  let? present := contains_str params "emb_channels" in
  let? state_dict :=
    if negb present then
      let? params := dict_getitem state_dict "params" in
      let? params := setitem_str params "emb_channels" (PInt 256) in
      Ok (<["params" := params]> state_dict)   (* for backward compat. *)
    else Ok state_dict in
  let? pitch := eq_one_truth f0 in
  let cls := if pitch then SynthesizerTrnMs256NSFSid
             else SynthesizerTrnMs256NSFSidNono in
  let? params := dict_getitem state_dict "params" in
  let? kwargs := build_kwargs cls params in
  let? _ := result_of (synthesizer_init W cls kwargs) in
  (* [del self.net_g.enc_q] drops a sub-module used in training only *)
  let? weight := dict_getitem state_dict "weight" in
  let? _ := result_of (load_state_dict W cls kwargs weight) in
  let net_g := Synthesizer cls kwargs weight (is_half W) in
  let vc := Pipeline tgt_sr (is_half W) in
  let? params := dict_getitem state_dict "params" in
  let? n_spk := getitem_str params "spk_embed_dim" in
  Ok (Build_VC_MODEL model_name state_dict tgt_sr embedder_name net_g vc n_spk).

(** ** [load_embedder] *)

Definition load_embedder (emb_file emb_name : string) : M unit :=
  let path := os_path_join (MODELS_DIR W) [emb_file] in
  emit (EvLoadEmbedder path);;
  check (load_model_ensemble_and_task W path);;
  (* [models[0]], moved to the device, cast and put in evaluation mode *)
  modify (set_embedder (Embedder path (is_half W)) emb_name).

Definition load_hubert : M unit :=
  let path := os_path_join (MODELS_DIR W) ["hubert_base.pt"] in
  emit (EvLoadEmbedder path);;
  check (load_model_ensemble_and_task W path);;
  modify (set_embedder (Embedder path (is_half W)) "hubert_base").

Definition load_contentvec : M unit :=
  let path := os_path_join (MODELS_DIR W) ["checkpoint_best_legacy_500.pt"] in
  emit (EvLoadEmbedder path);;
  check (load_model_ensemble_and_task W path);;
  modify (set_embedder (Embedder path (is_half W)) "contentvec").

(** ** [VC_MODEL.get_big_npy_path] and [VC_MODEL.get_index_path] *)

Definition get_big_npy_path (self : VC_MODEL) (speaker_id : Z) : string :=
  let basename := fst (os_path_splitext (model_name self)) in
  let speaker_big_npy_path :=
    os_path_join (MODELS_DIR W)
      [ "checkpoints"; basename ++ "_index";
        basename ++ "." ++ str_of_int speaker_id ++ ".big.npy" ] in
  if os_path_exists W speaker_big_npy_path then speaker_big_npy_path
  else os_path_join (MODELS_DIR W) ["checkpoints"; basename ++ ".big.npy"].

Definition get_index_path (self : VC_MODEL) (speaker_id : Z) : string :=
  let basename := fst (os_path_splitext (model_name self)) in
  let speaker_index_path :=
    os_path_join (MODELS_DIR W)
      [ "checkpoints"; basename ++ "_index";
        basename ++ "." ++ str_of_int speaker_id ++ ".index" ] in
  if os_path_exists W speaker_index_path then speaker_index_path
  else os_path_join (MODELS_DIR W) ["checkpoints"; basename ++ ".index"].

(** ** [VC_MODEL.single] *)

(** The arguments of [single]. *)
Record request : Type := Request {
  sid : Z;
  input_audio : string;
  f0_up_key : Z;
  f0_file : string;
  f0_method : string;
  auto_load_index : bool;
  faiss_index_file : string;
  big_npy_file : string;
  index_rate : Z                 (* a float, as its bit pattern *)
}.

Definition load_emb_dic : gmap string (string * string) :=
  list_to_map
    [ ("hubert_base", ("hubert_base.pt", "hubert_base"));
      ("hubert_base768", ("hubert_base.pt", "hubert_base"));
      ("contentvec", ("checkpoint_best_legacy_500.pt", "contentvec"));
      ("contentvec768", ("checkpoint_best_legacy_500.pt", "contentvec")) ].

(** [load_emb_dic[name]] behind the test [name in load_emb_dic.keys()]:
    [Ok None] when the name is not a key. *)
Definition lookup_embedder (name : pyval) : result (option (string * string)) :=
  if hashable name then
    match name with
    | PStr s => Ok (load_emb_dic !! s)
    | _ => Ok None
    end
  else Err TypeError.

(** One turn of the scan of the output directory. *)
Definition scan_step (index : N) (existing_file : string) : N :=
  match re_match_digits existing_file with
  | Some digits =>
      let prefix_num := int_of_digits digits in
      if (index <? prefix_num)%N then prefix_num else index
  | None => index
  end.

Definition scan_index (existing_files : list string) : N :=
  foldl scan_step 0%N existing_files.

(** The name given to the file written. *)
Definition output_name (self : VC_MODEL) (input_audio : string)
    (existing_files : list string) : string :=
  let input_audio_splitext :=
    fst (os_path_splitext (os_path_basename input_audio)) in
  let model_splitext := fst (os_path_splitext (model_name self)) in
  let index := scan_index existing_files in
  str_of_int (Z.of_N index + 1) ++ "-" ++ model_splitext ++ "-"
    ++ input_audio_splitext ++ ".wav".

(** [os.makedirs(AUDIO_OUT_DIR, exist_ok=True)]. *)
Definition makedirs_out : M unit :=
  modify (fun st => set_out_dir (default [] (out_dir st)) st).

(** [os.listdir(AUDIO_OUT_DIR)]. *)
Definition listdir_out : M (list string) :=
  fun st =>
    match out_dir st with
    | Some entries => (Ok entries, st)
    | None => (Err (ExternalError "FileNotFoundError"), st)
    end.

Fixpoint has_sep (s : string) : bool :=
  match s with
  | EmptyString => false
  | String c s' => Ascii.eqb c sep || has_sep s'
  end.

(** The output directory after a file called [name] was written there; a
    name with a separator lands in a sub-directory. *)
Definition add_entry (name : string) (st : state) : state :=
  match out_dir st with
  | Some entries =>
      if has_sep name || bool_decide (name ∈ entries) then st
      else set_out_dir (entries ++ [name]) st
  | None => st
  end.

(** [audio.export(os.path.join(AUDIO_OUT_DIR, name), format="wav")]. *)
Definition export (name : string) (frame_rate : pyval) (samples : ndarray)
  : M unit :=
  let path := os_path_join (AUDIO_OUT_DIR W) [name] in
  check (export_wav W path);;
  emit (EvExport path frame_rate samples);;
  modify (add_entry name).

Definition single (self : VC_MODEL) (rq : request) : M ndarray :=
  if String.eqb (input_audio rq) "" then
    raise (Exception "You need to set Source Audio")
  else
  let f0_up_key := f0_up_key rq in
  do audio <- lift (load_audio W (input_audio rq) 16000);
  do entry <- lift (lookup_embedder (embedder_name self));
  match entry with
  | None => raise (UnsupportedEmbedder (embedder_name self))
  | Some (emb_file, emb_name) =>
  do st <- get_state;
  (if bool_decide (embedder_model st = None)
      || negb (String.eqb (loaded_embedder_model st) emb_name)
   then emit (EvPrintLoad (embedder_name self));;
        load_embedder emb_file emb_name
   else ret tt);;
  let f0 := dict_get (weight self) "f0" (PInt 1) in
  let faiss_index_file :=
    if String.eqb (faiss_index_file rq) "" && auto_load_index rq
    then get_index_path self (sid rq) else faiss_index_file rq in
  let big_npy_file :=
    if String.eqb (big_npy_file rq) "" && auto_load_index rq
    then get_big_npy_path self (sid rq) else big_npy_file rq in
  do st <- get_state;
  let call :=
    VcCall (vc self) (embedder_model st) (net_g self) (sid rq) audio
           f0_up_key (f0_method rq) faiss_index_file big_npy_file
           (index_rate rq) f0 (f0_file rq) (embedder_name self) in
  emit (EvPipeline call);;
  do audio_opt <- lift (vc_run W call);
  check (audio_segment W audio_opt (tgt_sr self));;
  makedirs_out;;
  do existing_files <- listdir_out;
  export (output_name self (input_audio rq) existing_files)
         (tgt_sr self) audio_opt;;
  ret audio_opt
  end.

(** ** [get_vc_model] and [load_model] *)

Definition get_vc_model (model_name : string) : result VC_MODEL :=
  let model_path := os_path_join (MODELS_DIR W) ["checkpoints"; model_name] in
  let? weight := torch_load W model_path in
  VC_MODEL_init model_name weight.

(** [vc_model = get_vc_model(model_name)]: the global is assigned when the
    right-hand side has returned. *)
Definition load_model (model_name : string) : M unit :=
  do m <- lift (get_vc_model model_name);
  modify (set_vc_model m).

End Models.

(** ** Definitions used to state and prove the properties *)

(** The parameter map left by [update_state_dict], when it raised nothing,
    and one of its entries. *)
Definition normalized_params (state_dict : gmap string pyval)
  : option (gmap string pyval) :=
  let r := update_state_dict state_dict in
  match ls_exn r, ls_dict r !! "params" with
  | None, Some (PDict p) => Some p
  | _, _ => None
  end.

Definition normalized_param (state_dict : gmap string pyval) (key : string)
  : option pyval :=
  match normalized_params state_dict with
  | Some p => p !! key
  | None => None
  end.

(** The loop of [update_state_dict] seen from the parameter map alone, for
    a configuration that is a list. *)
Fixpoint fill_params (config : list pyval) (iks : list (nat * string))
    (p : gmap string pyval) (n : nat) : gmap string pyval * nat * option exn :=
  match iks with
  | [] => (p, n, None)
  | (i, key) :: rest =>
      if negb (Nat.eqb (List.length config) 19) && String.eqb key "emb_channels"
      then fill_params config rest (<[key := PInt 256]> p) (n + 1)
      else match config !! (i - n) with
           | Some x => fill_params config rest (<[key := x]> p) n
           | None => (p, n, Some IndexError)
           end
  end.

(** The canonical fields other than [emb_channels], in their order. *)
Definition other_keys : list string :=
  filter (fun key => key ≠ "emb_channels") keys.

(** A checkpoint that holds nothing but a configuration array [0, 1, ...]
    of [k] integers. *)
Definition count_config (k : nat) : list pyval :=
  (fun i => PInt (Z.of_nat i)) <$> seq 0 k.

Definition config_only (k : nat) : gmap string pyval :=
  {[ "config" := PList (count_config k) ]}.

(** The events added to the trace between two states. *)
Definition new_events (st st' : state) : list event :=
  drop (List.length (trace st)) (trace st').

Definition is_load (ev : event) : bool :=
  match ev with
  | EvLoadEmbedder _ => true
  | _ => false
  end.

(** The number of times an embedder file was read between two states. *)
Definition loads_between (st st' : state) : nat :=
  List.length (filter (fun ev => is_load ev = true) (new_events st st')).

(** The entry of [load_emb_dic] a call of [single] asks for, when the call
    gets as far as the embedder: the source path is not empty, the audio
    is decoded and the session's embedder name is a key. *)
Definition embedder_entry (W : World) (self : VC_MODEL) (rq : request)
  : option (string * string) :=
  if String.eqb (input_audio rq) "" then None
  else match load_audio W (input_audio rq) 16000 with
       | Ok _ =>
           match lookup_embedder (embedder_name self) with
           | Ok (Some entry) => Some entry
           | _ => None
           end
       | Err _ => None
       end.

(** The test that guards the call of [load_embedder]. *)
Definition needs_load (st : state) (emb_name : string) : bool :=
  bool_decide (embedder_model st = None)
  || negb (String.eqb (loaded_embedder_model st) emb_name).

(** The index paths handed to the pipeline. *)
Definition resolved_index (W : World) (self : VC_MODEL) (rq : request) : string :=
  if String.eqb (faiss_index_file rq) "" && auto_load_index rq
  then get_index_path W self (sid rq) else faiss_index_file rq.

Definition resolved_big_npy (W : World) (self : VC_MODEL) (rq : request) : string :=
  if String.eqb (big_npy_file rq) "" && auto_load_index rq
  then get_big_npy_path W self (sid rq) else big_npy_file rq.

Arguments resolved_index : simpl never.
Arguments resolved_big_npy : simpl never.

Definition pipeline_call (W : World) (self : VC_MODEL) (rq : request)
    (emb : option embedder) (audio : ndarray) : vc_call :=
  VcCall (vc self) emb (net_g self) (sid rq) audio (f0_up_key rq)
         (f0_method rq) (resolved_index W self rq) (resolved_big_npy W self rq)
         (index_rate rq) (dict_get (weight self) "f0" (PInt 1)) (f0_file rq)
         (embedder_name self).

(** The four logical embedder names. *)
Definition supported_embedders : list pyval :=
  [ PStr "hubert_base"; PStr "hubert_base768";
    PStr "contentvec"; PStr "contentvec768" ].

(** The embedder files and the family name each is loaded under. *)
Definition registry_files : list (string * string) :=
  [ ("hubert_base.pt", "hubert_base");
    ("checkpoint_best_legacy_500.pt", "contentvec") ].

(** The loaded embedder is the file that goes with the recorded name. *)
Definition registry_consistent (W : World) (st : state) : Prop :=
  ∀ e, embedder_model st = Some e →
    ∃ file, (file, loaded_embedder_model st) ∈ registry_files ∧
            e = Embedder (os_path_join (MODELS_DIR W) [file]) (is_half W).

(** A directory as [os.path.join] prefixes it to a relative path. *)
Definition dir_prefix (dir : string) : string :=
  if String.eqb dir "" || ends_with_sep dir then dir else dir ++ "/".

(** The number a file name starts with, if it starts with a digit. *)
Definition numeric_prefix (file : string) : option N :=
  int_of_digits <$> re_match_digits file.

(** [n] is the largest numeric prefix among [files], or 0 when no file
    has one. *)
Definition is_max_prefix (files : list string) (n : N) : Prop :=
  (∀ file k, file ∈ files → numeric_prefix file = Some k → (k ≤ n)%N) ∧
  (n = 0%N ∨ ∃ file, file ∈ files ∧ numeric_prefix file = Some n).

(** ** A small installation, to run the module on

    A legacy checkpoint [modelA.pth]: 18 configuration entries that record
    109 speakers, a speaker table of 4 rows, no [f0] and no
    [embedder_name] entry; [modelB.pth] and [modelC.pth] are the same with
    an embedder name; [short.pth] holds 5 configuration entries only. *)

Definition legacy_config : list pyval :=
  [ PInt 1025; PInt 32; PInt 192; PInt 192; PInt 768; PInt 2; PInt 6; PInt 3;
    PFloat 0; PStr "1"; PList [PInt 3; PInt 7; PInt 11];
    PList [ PList [PInt 1; PInt 3; PInt 5]; PList [PInt 1; PInt 3; PInt 5];
            PList [PInt 1; PInt 3; PInt 5] ];
    PList [PInt 10; PInt 10; PInt 2; PInt 2]; PInt 512;
    PList [PInt 16; PInt 16; PInt 4; PInt 4];
    PInt 109; PInt 256; PInt 40000 ].

Definition speaker_table : pyval := PTensor [4; 256]%N (replicate 1024 (PFloat 0)).

Definition legacy_checkpoint : gmap string pyval :=
  <["config" := PList legacy_config]>
    (<["weight" := PDict {[ "emb_g.weight" := speaker_table ]}]> ∅).

Definition example_world : World := {|
  is_half := false;
  MODELS_DIR := "models";
  AUDIO_OUT_DIR := "outputs";
  torch_load := fun path =>
    if String.eqb path "models/checkpoints/modelA.pth" then Ok legacy_checkpoint
    else if String.eqb path "models/checkpoints/modelB.pth"
    then Ok (<["embedder_name" := PStr "hubert_base768"]> legacy_checkpoint)
    else if String.eqb path "models/checkpoints/modelC.pth"
    then Ok (<["embedder_name" := PStr "wavlm"]> legacy_checkpoint)
    else if String.eqb path "models/checkpoints/short.pth"
    then Ok (config_only 5)
    else Err (ExternalError "FileNotFoundError");
  synthesizer_init := fun _ _ => None;
  load_state_dict := fun _ _ _ => None;
  load_audio := fun path _ =>
    if String.eqb path "voice.wav" then Ok [0; 0; 0]%Z
    else Err (ExternalError "load_audio");
  load_model_ensemble_and_task := fun _ => None;
  vc_run := fun c => Ok (call_audio c);
  audio_segment := fun _ _ => None;
  os_path_exists := fun path => String.eqb path "models/checkpoints/modelA.index";
  export_wav := fun _ => None
|}.

Definition blank_session : VC_MODEL :=
  Build_VC_MODEL "" ∅ PNone PNone
    (Synthesizer SynthesizerTrnMs256NSFSid ∅ PNone false)
    (Pipeline PNone false) PNone.

(** The session a call [get_vc_model(name)] returns in [example_world]. *)
Definition session_of (name : string) : VC_MODEL :=
  match get_vc_model example_world name with
  | Ok m => m
  | Err _ => blank_session
  end.

(** Speaker 0, [voice.wav], two semitones up, index paths resolved
    automatically, index rate 0.5. *)
Definition example_request : request :=
  Request 0 "voice.wav" 2 "" "pm" true "" "" 0x3FE0000000000000.

(** ** [get_models] *)

(** [s.endswith(suffix)]. *)
Definition endswith (s suffix : string) : bool :=
  Nat.leb (String.length suffix) (String.length s)
  && String.eqb (slice_from (String.length s - String.length suffix) s) suffix.

(** [any(xs)] for a list of strings: some string is not empty. *)
Definition any_str (xs : list string) : bool :=
  existsb (fun x => negb (String.eqb x "")) xs.

(** The test of the comprehension of [get_models]:
    [any([x for x in [".ckpt", ".pth"] if file.endswith(x)])]. *)
Definition is_model_file (file : string) : bool :=
  any_str (filter (fun x => endswith file x = true) [".ckpt"; ".pth"]).

(** The directory [get_models] lists. *)
Definition models_listing_dir (ROOT_DIR : string) : string :=
  os_path_join ROOT_DIR ["models"; "checkpoints"].

(** [get_models()], given what [os.listdir(dir)] holds for its directory
    ([None]: no such directory yet): the names returned and the directory
    after the call, which [os.makedirs(dir, exist_ok=True)] has created. *)
Definition get_models (listing : option (list string))
  : list string * option (list string) :=
  let entries := default [] listing in
  (filter (fun file => is_model_file file = true) entries, Some entries).

(** ** [download_models] *)

(** [template.format(arg)] for a template with one pair of braces. *)
Fixpoint str_format (template arg : string) : string :=
  match template with
  | EmptyString => EmptyString
  | String c rest =>
      match rest with
      | String c' rest' =>
          if Ascii.eqb c "{" && Ascii.eqb c' "}" then arg ++ rest'
          else String c (str_format rest arg)
      | EmptyString => String c EmptyString
      end
  end.

Definition pretrained_templates : list string := ["D{}k"; "G{}k"; "f0D{}k"; "f0G{}k"].
Definition pretrained_rates : list string := ["32"; "40"; "48"].

Definition pretrained_url (template sr : string) : string :=
  "https://huggingface.co/ddPn08/rvc_pretrained/resolve/main/"
    ++ str_format template sr ++ ".pth".

Definition embedder_urls : list string :=
  [ "https://huggingface.co/ddPn08/rvc_pretrained/resolve/main/hubert_base.pt";
    "https://huggingface.co/innnky/contentvec/resolve/main/checkpoint_best_legacy_500.pt" ].

(** The string after the first occurrence of [c], if any. *)
Fixpoint after_char (c : ascii) (s : string) : option string :=
  match s with
  | EmptyString => None
  | String x s' => if Ascii.eqb x c then Some s' else after_char c s'
  end.

(** The string from the first occurrence of [c] on, or nothing. *)
Fixpoint from_char (c : ascii) (s : string) : string :=
  match s with
  | EmptyString => EmptyString
  | String x s' => if Ascii.eqb x c then s else from_char c s'
  end.

(** [urlparse(url).path] for a URL of the form [scheme://host/path], with
    no query, fragment or parameters: what follows the host. *)
Definition urlparse_path (url : string) : string :=
  match after_char ":" url with
  | Some (String "/" (String "/" rest)) => from_char "/" rest
  | _ => url
  end.

(** One request [donwload_file(url, out)]. *)
Record fetch : Type := Fetch {
  fetch_url : string;
  fetch_out : string
}.

Section Downloads.
Context (W : World).

(** The first loop of [download_models], run on the set [files] of the
    paths that exist: the requests handed to the executor, in the order of
    the list [tasks]. *)
Definition download_tasks (files : gset string) : list fetch :=
  template ← pretrained_templates;
  sr ← pretrained_rates;
  let url := pretrained_url template sr in
  let out := os_path_join (MODELS_DIR W)
               ["pretrained"; str_format template sr ++ ".pth"] in
  if bool_decide (out ∈ files) then [] else [Fetch url out].

(** Where the last loop of [download_models] puts the file of [url]. *)
Definition embedder_out (url : string) : string :=
  os_path_join (MODELS_DIR W) [os_path_basename (urlparse_path url)].

(** The last loop of [download_models], run on the set [files] of the
    paths that exist, with [donwload_file] raising [e] where [failing]
    gives [Some e] and leaving its file at [out] where it returns: the
    exception raised, the files afterwards and the requests made. *)
Fixpoint download_embedders (failing : string → option exn) (urls : list string)
    (files : gset string) : option exn * gset string * list fetch :=
  match urls with
  | [] => (None, files, [])
  | url :: rest =>
      let out := embedder_out url in
      if bool_decide (out ∈ files) then download_embedders failing rest files
      else match failing url with
           | Some e => (Some e, files, [Fetch url out])
           | None =>
               let '(r, files', done) :=
                 download_embedders failing rest ({[out]} ∪ files) in
               (r, files', Fetch url out :: done)
           end
  end.

End Downloads.

(** ** The ways the module is driven *)



(** A string holds a character other than the dot. *)
Fixpoint has_non_dot (s : string) : bool :=
  match s with
  | EmptyString => false
  | String c s' => negb (Ascii.eqb c extsep) || has_non_dot s'
  end.

Fixpoint has_dot (s : string) : bool :=
  match s with
  | EmptyString => false
  | String c s' => Ascii.eqb c extsep || has_dot s'
  end.

Definition is_export (ev : event) : bool :=
  match ev with
  | EvExport _ _ _ => true
  | _ => false
  end.


(** ** More of the small installation *)

(** The legacy checkpoint with a parameter map stored beside its
    configuration array: [sr] 48000 and no [emb_channels]. *)
Definition stored_checkpoint : gmap string pyval :=
  <["params" := PDict {[ "sr" := PInt 48000 ]}]> legacy_checkpoint.

(** The legacy checkpoint with the pitch flag off. *)
Definition unpitched_checkpoint : gmap string pyval :=
  <["f0" := PInt 0]> legacy_checkpoint.

(** A request with an index file of its own and the vector path left to
    the module. *)
Definition indexed_request : request :=
  Request 1 "voice.wav" 0 "" "harvest" true "my.index" "" 0.


(** A session that has nothing but its model name. *)
Definition named_session (name : string) : VC_MODEL :=
  Build_VC_MODEL name ∅ PNone PNone (net_g blank_session) (vc blank_session) PNone.

(** The files of the pretrained networks, as the two loops of
    [download_models] name them. *)
Definition pretrained_names : list string :=
  [ "D32k.pth"; "D40k.pth"; "D48k.pth";
    "G32k.pth"; "G40k.pth"; "G48k.pth";
    "f0D32k.pth"; "f0D40k.pth"; "f0D48k.pth";
    "f0G32k.pth"; "f0G40k.pth"; "f0G48k.pth" ].

Definition pretrained_base : string :=
  "https://huggingface.co/ddPn08/rvc_pretrained/resolve/main/".

(** Where a pretrained network is kept. *)
Definition pretrained_out (W : World) (name : string) : string :=
  dir_prefix (MODELS_DIR W) ++ "pretrained/" ++ name.

(** ** Properties of [update_state_dict] *)

(** Closes an equation between closed terms by evaluating both sides. *)
Ltac vm_refl :=
  match goal with
  | |- ?a = ?b => vm_cast_no_check (@eq_refl _ b)
  end.

Lemma update_loop_fill config iks : ∀ state_dict p n,
  state_dict !! "config" = Some (PList config) →
  state_dict !! "params" = Some (PDict p) →
  update_loop iks state_dict n =
    let '(p', n', e) := fill_params config iks p n in
    LoopState (<["params" := PDict p']> state_dict) n' e.
Proof.
  induction iks as [|[i key] rest IH]; intros sd p n Hc Hp; simpl.
  - by rewrite insert_id.
  - unfold update_step, store_param, dict_getitem. rewrite Hc, Hp. simpl.
    destruct (negb (Nat.eqb (List.length config) 19) && String.eqb key "emb_channels").
    + simpl. rewrite (IH _ (<[key := PInt 256]> p)).
      * destruct (fill_params _ _ _ _) as [[p' n'] e]. by rewrite insert_insert_eq.
      * by rewrite lookup_insert_ne.
      * by rewrite lookup_insert_eq.
    + destruct (config !! (i - n)) as [x|] eqn:Hx; simpl.
      * rewrite (IH _ (<[key := x]> p)).
        -- destruct (fill_params _ _ _ _) as [[p' n'] e]. by rewrite insert_insert_eq.
        -- by rewrite lookup_insert_ne.
        -- by rewrite lookup_insert_eq.
      * by rewrite insert_id.
Qed.

Lemma update_state_dict_fill state_dict config :
  has_params state_dict = false →
  state_dict !! "config" = Some (PList config) →
  update_state_dict state_dict =
    let '(p', n', e) := fill_params config (enumerate keys) ∅ 0 in
    LoopState (<["params" := PDict p']> state_dict) n' e.
Proof.
  intros Hp Hc. unfold update_state_dict. rewrite Hp.
  rewrite (update_loop_fill config _ _ ∅).
  - destruct (fill_params _ _ _ _) as [[p' n'] e]. by rewrite insert_insert_eq.
  - by rewrite lookup_insert_ne.
  - by rewrite lookup_insert_eq.
Qed.

Lemma fill_params_18 (config : list pyval) :
  List.length config = 18 →
  fill_params config (enumerate keys) ∅ 0 =
    (<["emb_channels" := PInt 256]> (list_to_map (zip other_keys config)), 1, None).
Proof.
  intros Hlen.
  do 18 (destruct config as [|? config]; [discriminate Hlen|]).
  destruct config; [|discriminate Hlen].
  vm_refl.
Qed.

Lemma fill_params_19 (config : list pyval) :
  List.length config = 19 →
  fill_params config (enumerate keys) ∅ 0 = (list_to_map (zip keys config), 0, None).
Proof.
  intros Hlen.
  do 19 (destruct config as [|? config]; [discriminate Hlen|]).
  destruct config; [|discriminate Hlen].
  vm_refl.
Qed.

Lemma fill_params_not_19 (config : list pyval) :
  18 ≤ List.length config → List.length config ≠ 19 →
  fill_params config (enumerate keys) ∅ 0 =
    (<["emb_channels" := PInt 256]> (list_to_map (zip other_keys config)), 1, None).
Proof.
  intros Hge Hne.
  do 18 (destruct config as [|? config]; [simpl in Hge; lia|]).
  destruct config as [|? [|? config]].
  - vm_refl.
  - simpl in Hne. lia.
  - vm_refl.
Qed.

Lemma fill_params_short (config : list pyval) :
  List.length config < 18 →
  (fill_params config (enumerate keys) ∅ 0).2 = Some IndexError.
Proof.
  intros Hlt.
  do 18 (destruct config as [|? config]; [vm_refl|]).
  simpl in Hlt. lia.
Qed.

Lemma normalized_params_fill state_dict config :
  has_params state_dict = false →
  state_dict !! "config" = Some (PList config) →
  normalized_params state_dict =
    let '(p, _, e) := fill_params config (enumerate keys) ∅ 0 in
    match e with None => Some p | Some _ => None end.
Proof.
  intros Hp Hc. unfold normalized_params.
  rewrite (update_state_dict_fill _ config Hp Hc).
  destruct (fill_params _ _ _ _) as [[p n] [e|]]; simpl; [done|].
  by rewrite lookup_insert_eq.
Qed.

Lemma zip_keys_lookup_le (ks : list string) (config : list pyval) :
  NoDup ks → List.length ks ≤ List.length config →
  ∀ j key, ks !! j = Some key →
    (list_to_map (zip ks config) : gmap string pyval) !! key = config !! j.
Proof.
  intros Hnd. revert config.
  induction Hnd as [|k ks Hk Hnd IH]; intros config Hlen j key Hj; [done|].
  destruct config as [|c config]; [simpl in Hlen; lia|]. simpl in Hlen.
  destruct j as [|j]; simpl in *.
  - injection Hj as <-. by rewrite lookup_insert_eq.
  - rewrite lookup_insert_ne.
    + apply IH; [lia | done].
    + intros <-. apply Hk. apply list_elem_of_lookup. eauto.
Qed.

Lemma zip_keys_lookup (ks : list string) (config : list pyval) :
  NoDup ks → List.length ks = List.length config →
  ∀ j key, ks !! j = Some key →
    (list_to_map (zip ks config) : gmap string pyval) !! key = config !! j.
Proof. intros Hnd Hlen. apply zip_keys_lookup_le; [done | lia]. Qed.

Lemma keys_NoDup : NoDup keys.
Proof. apply (bool_decide_unpack _). vm_compute. exact I. Qed.

Lemma other_keys_NoDup : NoDup other_keys.
Proof. apply (bool_decide_unpack _). vm_compute. exact I. Qed.

(** C1, as amended.  For a checkpoint that carries no parameter map yet:
    when its configuration array has length 18, normalization yields a map
    where [emb_channels] is 256 and the other 18 canonical fields hold the
    array's entries in their order (the j-th of them holds [config[j]]);
    when the array has length 19, every canonical field holds the entry at
    its own position, so [emb_channels], the field at position 17, holds
    [config[17]] (and [sr] holds [config[18]]). *)
Theorem legacy_config_backfill (state_dict : gmap string pyval) (config : list pyval) :
  has_params state_dict = false →
  state_dict !! "config" = Some (PList config) →
  (List.length config = 18 →
     ∃ p, normalized_params state_dict = Some p ∧
          p !! "emb_channels" = Some (PInt 256) ∧
          ∀ j key, other_keys !! j = Some key →
            is_Some (p !! key) ∧ p !! key = config !! j) ∧
  (List.length config = 19 →
     ∃ p, normalized_params state_dict = Some p ∧
          (∀ j key, keys !! j = Some key →
             is_Some (p !! key) ∧ p !! key = config !! j) ∧
          p !! "emb_channels" = config !! 17 ∧
          p !! "sr" = config !! 18).
Proof.
  intros Hp Hc. split; intros Hlen.
  - eexists. split; [|split].
    + rewrite (normalized_params_fill _ config Hp Hc).
      by rewrite (fill_params_18 config Hlen).
    + by rewrite lookup_insert_eq.
    + intros j key Hj.
      assert (Hne : "emb_channels" ≠ key).
      { intros <-. apply list_elem_of_lookup_2 in Hj.
        revert Hj. by apply (bool_decide_unpack _). }
      rewrite lookup_insert_ne by done.
      assert (Hcj : (list_to_map (zip other_keys config) : gmap string pyval) !! key
                    = config !! j).
      { apply zip_keys_lookup; [apply other_keys_NoDup | by rewrite Hlen | done]. }
      split; [|done]. rewrite Hcj. apply lookup_lt_is_Some.
      apply lookup_lt_Some in Hj. rewrite Hlen.
      change (List.length other_keys) with 18 in Hj. done.
  - assert (Hall : ∀ j key, keys !! j = Some key →
      (list_to_map (zip keys config) : gmap string pyval) !! key = config !! j).
    { apply zip_keys_lookup; [apply keys_NoDup | by rewrite Hlen]. }
    eexists. split; [|split; [|split]].
    + rewrite (normalized_params_fill _ config Hp Hc).
      by rewrite (fill_params_19 config Hlen).
    + intros j key Hj. split; [|by apply Hall].
      rewrite (Hall j key Hj). apply lookup_lt_is_Some.
      apply lookup_lt_Some in Hj. rewrite Hlen.
      change (List.length keys) with 19 in Hj. done.
    + by apply Hall.
    + by apply Hall.
Qed.

Lemma legacy_config_backfill_witness :
  normalized_param (config_only 18) "emb_channels" = Some (PInt 256) ∧
  normalized_param (config_only 18) "sr" = Some (PInt 17) ∧
  normalized_param (config_only 19) "emb_channels" = Some (PInt 17).
Proof.
  assert (Hp : ∀ k, has_params (config_only k) = false) by (intros k; vm_refl).
  assert (Hc : ∀ k, config_only k !! "config" = Some (PList (count_config k)))
    by (intros k; apply lookup_singleton_eq).
  destruct (legacy_config_backfill (config_only 18) (count_config 18) (Hp 18) (Hc 18))
    as [H18 _].
  destruct (legacy_config_backfill (config_only 19) (count_config 19) (Hp 19) (Hc 19))
    as [_ H19].
  destruct (H18 eq_refl) as (p & Hn & Hemb & Hrest).
  destruct (H19 eq_refl) as (q & Hm & _ & Hemb' & _).
  unfold normalized_param. rewrite Hn, Hm.
  split; [exact Hemb|]. split; [|exact Hemb'].
  exact (proj2 (Hrest 17 "sr" eq_refl)).
Defined.

(** C1 as stated fails: on the array [0, 1, ..., 18] of length 19,
    [emb_channels] is 17, the entry at index 17, and not the entry at
    index 18, which [sr] receives. *)
Lemma emb_channels_not_last_slot :
  has_params (config_only 19) = false ∧
  config_only 19 !! "config" = Some (PList (count_config 19)) ∧
  List.length (count_config 19) = 19 ∧
  normalized_param (config_only 19) "emb_channels" = Some (PInt 17) ∧
  count_config 19 !! 18 = Some (PInt 18) ∧
  normalized_param (config_only 19) "emb_channels" ≠ count_config 19 !! 18.
Proof.
  assert (He : normalized_param (config_only 19) "emb_channels" = Some (PInt 17))
    by vm_refl.
  split; [vm_refl|]. split; [apply lookup_singleton_eq|]. split; [vm_refl|].
  split; [exact He|]. split; [vm_refl|].
  rewrite He. discriminate.
Qed.

(** C2, as amended.  For a checkpoint that carries no parameter map yet and
    whose configuration array has at least 18 entries, normalization
    completes; it skips [emb_channels] (gives it 256 and takes no array
    slot for it, so that [sr] receives [config[17]]) exactly when the
    array's length differs from 19; when the length is 19, [emb_channels]
    is read from the array, at index 17. *)
Theorem emb_channels_skip_rule (state_dict : gmap string pyval) (config : list pyval) :
  has_params state_dict = false →
  state_dict !! "config" = Some (PList config) →
  18 ≤ List.length config →
  let r := update_state_dict state_dict in
  ls_exn r = None ∧
  (ls_n r = 1 ↔ List.length config ≠ 19) ∧
  ∃ p, ls_dict r !! "params" = Some (PDict p) ∧
       (List.length config ≠ 19 →
          ls_n r = 1 ∧ p !! "emb_channels" = Some (PInt 256) ∧
          p !! "sr" = config !! 17) ∧
       (List.length config = 19 →
          ls_n r = 0 ∧ p !! "emb_channels" = config !! 17 ∧
          p !! "sr" = config !! 18).
Proof.
  intros Hp Hc Hge r. subst r.
  rewrite (update_state_dict_fill _ config Hp Hc).
  destruct (decide (List.length config = 19)) as [Hlen|Hlen].
  - rewrite (fill_params_19 config Hlen). cbn [ls_exn ls_n ls_dict].
    split; [done|]. split; [split; [discriminate | done]|].
    eexists. split; [by rewrite lookup_insert_eq|].
    split; [done|]. intros _. split; [done|].
    split; by apply zip_keys_lookup; [apply keys_NoDup | rewrite Hlen |].
  - rewrite (fill_params_not_19 config Hge Hlen). cbn [ls_exn ls_n ls_dict].
    split; [done|]. split; [done|].
    eexists. split; [by rewrite lookup_insert_eq|].
    split; [|done]. intros _. split; [done|].
    split; [by rewrite lookup_insert_eq|].
    rewrite lookup_insert_ne by done.
    do 18 (destruct config as [|? config]; [simpl in Hge; lia|]).
    vm_refl.
Qed.

Lemma emb_channels_skip_rule_witness :
  ls_n (update_state_dict (config_only 18)) = 1 ∧
  ls_n (update_state_dict (config_only 19)) = 0.
Proof.
  assert (Hp : ∀ k, has_params (config_only k) = false) by (intros k; vm_refl).
  assert (Hc : ∀ k, config_only k !! "config" = Some (PList (count_config k)))
    by (intros k; apply lookup_singleton_eq).
  split.
  - apply (emb_channels_skip_rule (config_only 18) (count_config 18) (Hp 18) (Hc 18));
      vm_compute; lia.
  - destruct (emb_channels_skip_rule (config_only 19) (count_config 19) (Hp 19) (Hc 19))
      as (_ & _ & p & _ & _ & H19); [vm_compute; lia|].
    exact (proj1 (H19 eq_refl)).
Defined.

(** C2 as stated fails: the array [0, 1, ..., 19] has 20 entries, which is
    19 or more, and [emb_channels] is still skipped: it gets 256, which is
    no entry of the array, and [sr] gets the entry at index 17. *)
Lemma longer_config_skips_emb_channels :
  has_params (config_only 20) = false ∧
  config_only 20 !! "config" = Some (PList (count_config 20)) ∧
  19 ≤ List.length (count_config 20) ∧
  ls_n (update_state_dict (config_only 20)) = 1 ∧
  normalized_param (config_only 20) "emb_channels" = Some (PInt 256) ∧
  (PInt 256 ∉ count_config 20) ∧
  normalized_param (config_only 20) "sr" = count_config 20 !! 17.
Proof.
  split; [vm_refl|]. split; [apply lookup_singleton_eq|].
  split; [vm_compute; lia|]. split; [vm_refl|].
  split; [vm_refl|]. split; [|vm_refl].
  intros Hin. apply list_elem_of_In in Hin. vm_compute in Hin.
  repeat (destruct Hin as [Hin|Hin]; [discriminate Hin|]). exact Hin.
Qed.

Lemma keys_split key :
  key ∈ keys → key = "emb_channels" ∨ ∃ j, j < 18 ∧ other_keys !! j = Some key.
Proof.
  intros Hin. destruct (decide (key = "emb_channels")) as [|Hne]; [by left|].
  right. assert (Ho : key ∈ other_keys).
  { unfold other_keys. by apply list_elem_of_filter. }
  apply list_elem_of_lookup in Ho as [j Hj]. exists j. split; [|done].
  by apply lookup_lt_Some in Hj.
Qed.

(** Normalization never truncates: on a checkpoint without a parameter map
    whose configuration is a list, it raises when the list has fewer than 18
    entries and fills all 19 canonical fields otherwise. *)
Lemma normalization_all_or_nothing (state_dict : gmap string pyval)
    (config : list pyval) :
  has_params state_dict = false →
  state_dict !! "config" = Some (PList config) →
  (List.length config < 18 ∧
   ls_exn (update_state_dict state_dict) = Some IndexError) ∨
  (18 ≤ List.length config ∧
   ∃ p, normalized_params state_dict = Some p ∧
        ∀ key, key ∈ keys → is_Some (p !! key)).
Proof.
  intros Hp Hc.
  destruct (decide (List.length config < 18)) as [Hlt|Hge].
  - left. split; [done|]. rewrite (update_state_dict_fill _ config Hp Hc).
    pose proof (fill_params_short config Hlt) as Hf.
    by destruct (fill_params _ _ _ _) as [[p n] e].
  - right. split; [lia|]. rewrite (normalized_params_fill _ config Hp Hc).
    destruct (decide (List.length config = 19)) as [H19|H19].
    + rewrite (fill_params_19 config H19). eexists. split; [done|].
      intros key [j Hj]%list_elem_of_lookup.
      rewrite (zip_keys_lookup_le keys config keys_NoDup) with (j := j);
        [|rewrite H19; done | done].
      apply lookup_lt_is_Some. apply lookup_lt_Some in Hj.
      change (List.length keys) with 19 in Hj. lia.
    + rewrite (fill_params_not_19 config) by (done || lia).
      eexists. split; [done|].
      intros key [->|(j & Hj18 & Hj)]%keys_split.
      * by rewrite lookup_insert_eq.
      * rewrite lookup_insert_ne.
        -- rewrite (zip_keys_lookup_le other_keys config other_keys_NoDup) with (j := j);
             [|change (List.length other_keys) with 18; lia | done].
           apply lookup_lt_is_Some. lia.
        -- intros <-. apply list_elem_of_lookup_2 in Hj.
           revert Hj. by apply (bool_decide_unpack _).
Qed.

(** ** Properties of [VC_MODEL.__init__] *)



Lemma rbind_Ok {A B} (r : result A) (k : A → result B) b :
  rbind r k = Ok b → ∃ a, r = Ok a ∧ k a = Ok b.
Proof. destruct r; simpl; [eauto | discriminate]. Qed.

Ltac rbind_inv H :=
  let a := fresh "a" in
  let E := fresh "E" in
  apply rbind_Ok in H; destruct H as (a & E & H).

Lemma store_param_Ok sd key x sd' :
  store_param sd key x = Ok sd' →
  ∃ p, sd !! "params" = Some (PDict p) ∧ sd' = <["params" := PDict (<[key := x]> p)]> sd.
Proof.
  unfold store_param, dict_getitem. intros H.
  destruct (sd !! "params") as [[]|]; simpl in H; try discriminate H.
  injection H as <-. eauto.
Qed.

Lemma update_step_other sd n i key sd' n' :
  update_step sd n i key = Ok (sd', n') →
  ∀ k, k ≠ "params" → sd' !! k = sd !! k.
Proof.
  unfold update_step. intros H k Hk.
  rbind_inv H. rbind_inv H.
  destruct (_ && _).
  - rbind_inv H. injection H as <- <-.
    apply store_param_Ok in E1 as (p & _ & ->). by rewrite lookup_insert_ne.
  - do 3 rbind_inv H. injection H as <- <-.
    apply store_param_Ok in E3 as (p & _ & ->). by rewrite lookup_insert_ne.
Qed.

Lemma update_loop_other iks : ∀ sd n k,
  k ≠ "params" → ls_dict (update_loop iks sd n) !! k = sd !! k.
Proof.
  induction iks as [|[i key] rest IH]; intros sd n k Hk; simpl; [done|].
  destruct (update_step sd n i key) as [[sd' n']|e] eqn:E; [|done].
  rewrite IH by done. by eapply update_step_other.
Qed.

Lemma update_state_dict_other sd k :
  k ≠ "params" → ls_dict (update_state_dict sd) !! k = sd !! k.
Proof.
  intros Hk. unfold update_state_dict. destruct (has_params sd); [done|].
  rewrite update_loop_other by done. by rewrite lookup_insert_ne.
Qed.

Lemma dict_getitem_Ok d k v : dict_getitem d k = Ok v → d !! k = Some v.
Proof. unfold dict_getitem. destruct (d !! k); [congruence | discriminate]. Qed.

Lemma getitem_str_Ok v k x :
  getitem_str v k = Ok x → ∃ d, v = PDict d ∧ d !! k = Some x.
Proof.
  destruct v; simpl; try discriminate. intros H%dict_getitem_Ok. eauto.
Qed.

Lemma result_of_Ok o u : result_of o = Ok u → o = None.
Proof. destruct o; [discriminate | done]. Qed.

Lemma VC_MODEL_init_Ok W name sd m :
  VC_MODEL_init W name sd = Ok m →
  ∃ (p0 wt : gmap string pyval) (d : N) (shape : list N) (data : list pyval)
    (sr : pyval) (pitch : bool) (kwargs : gmap string pyval),
    let sd0 := ls_dict (update_state_dict sd) in
    let p1 := <["spk_embed_dim" := PInt (Z.of_N d)]> p0 in
    let p2 := if bool_decide (is_Some (p1 !! "emb_channels")) then p1
              else <["emb_channels" := PInt 256]> p1 in
    let cls := if pitch then SynthesizerTrnMs256NSFSid
               else SynthesizerTrnMs256NSFSidNono in
    ls_exn (update_state_dict sd) = None ∧
    sd0 !! "params" = Some (PDict p0) ∧
    p0 !! "sr" = Some sr ∧
    sd !! "weight" = Some (PDict wt) ∧
    wt !! "emb_g.weight" = Some (PTensor (d :: shape) data) ∧
    eq_one_truth (dict_get sd "f0" (PInt 1)) = Ok pitch ∧
    build_kwargs W cls (PDict p2) = Ok kwargs ∧
    m = Build_VC_MODEL name (<["params" := PDict p2]> sd0) sr
          (dict_get sd "embedder_name" (PStr "hubert_base"))
          (Synthesizer cls kwargs (PDict wt) (is_half W))
          (Pipeline sr (is_half W)) (PInt (Z.of_N d)).
Proof.
  unfold VC_MODEL_init. intros H.
  rbind_inv H. apply result_of_Ok in E. rename E into Hexn. clear a.
  rbind_inv H. apply dict_getitem_Ok in E. rename E into Hparams.
  rbind_inv H. apply getitem_str_Ok in E as (p0 & -> & Hsr). rename a0 into sr.
  rbind_inv H. apply dict_getitem_Ok in E.
  rewrite update_state_dict_other in E by done. rename E into Hweight.
  rbind_inv H. apply getitem_str_Ok in E as (wt & -> & Hemb).
  rbind_inv H. destruct a0; try discriminate E. injection E as <-.
  rbind_inv H. destruct shape as [|d shape]; [discriminate E|]. injection E as <-.
  rbind_inv H. apply dict_getitem_Ok in E. rewrite Hparams in E. injection E as <-.
  rbind_inv H. injection E as <-.
  rbind_inv H. apply dict_getitem_Ok in E. rewrite lookup_insert_eq in E.
  injection E as <-.
  rbind_inv H. injection E as <-.
  rbind_inv H. rename E into Hsd.
  rbind_inv H. rename E into Hpitch, a0 into pitch.
  unfold dict_get in Hpitch. rewrite update_state_dict_other in Hpitch by done.
  set (p1 := <["spk_embed_dim" := PInt (Z.of_N d)]> p0) in *.
  set (sd0 := ls_dict (update_state_dict sd)) in *.
  assert (Ha : a = <["params" := PDict
             (if bool_decide (is_Some (p1 !! "emb_channels")) then p1
              else <["emb_channels" := PInt 256]> p1)]> sd0).
  { destruct (bool_decide (is_Some (p1 !! "emb_channels"))); simpl in Hsd.
    - by injection Hsd as <-.
    - unfold dict_getitem in Hsd. rewrite lookup_insert_eq in Hsd. simpl in Hsd.
      injection Hsd as <-. by rewrite insert_insert_eq. }
  clear Hsd. subst a.
  rbind_inv H. apply dict_getitem_Ok in E. rewrite lookup_insert_eq in E.
  injection E as <-.
  rbind_inv H. rename E into Hkw, a into kwargs.
  rbind_inv H. clear E a.
  rbind_inv H. apply dict_getitem_Ok in E. rewrite lookup_insert_ne in E by done.
  unfold sd0 in E. rewrite update_state_dict_other in E by done.
  rewrite Hweight in E. injection E as <-.
  rbind_inv H. clear E a.
  rbind_inv H. apply dict_getitem_Ok in E. rewrite lookup_insert_eq in E.
  injection E as <-.
  rbind_inv H. apply getitem_str_Ok in E as (p' & Hp' & Hn).
  injection Hp' as <-.
  assert (a = PInt (Z.of_N d)) as ->.
  { destruct (bool_decide _) in Hn.
    - unfold p1 in Hn. rewrite lookup_insert_eq in Hn. congruence.
    - rewrite lookup_insert_ne in Hn by done. unfold p1 in Hn.
      rewrite lookup_insert_eq in Hn. congruence. }
  injection H as <-.
  exists p0, wt, d, shape, data, sr, pitch, kwargs. cbv zeta.
  repeat split; try done.
  unfold dict_get, sd0. by rewrite update_state_dict_other.
Qed.

(** ** Properties of [VC_MODEL.single] *)

Lemma add_entry_fields name st :
  trace (add_entry name st) = trace st ∧
  vc_model (add_entry name st) = vc_model st ∧
  embedder_model (add_entry name st) = embedder_model st ∧
  loaded_embedder_model (add_entry name st) = loaded_embedder_model st.
Proof. unfold add_entry. by repeat case_match. Qed.


(** Unfolds a call of [single], keeping the two resolved index paths
    folded. *)
Ltac run_single :=
  match goal with
  | |- context [single ?W ?self ?rq _] =>
      unfold single, load_embedder, export, makedirs_out, listdir_out,
             bind, lift, raise, check, emit, modify, get_state, ret;
      fold (resolved_index W self rq); fold (resolved_big_npy W self rq)
  end.

Ltac state_fields :=
  simpl;
  rewrite ?(proj1 (add_entry_fields _ _)),
          ?(proj1 (proj2 (add_entry_fields _ _))),
          ?(proj1 (proj2 (proj2 (add_entry_fields _ _)))),
          ?(proj2 (proj2 (proj2 (add_entry_fields _ _)))); simpl;
  rewrite <- ?app_assoc; simpl.

Ltac single_cases :=
  run_single; repeat case_match; simplify_eq/=; state_fields.

Ltac events :=
  unfold new_events; state_fields;
  rewrite ?drop_app_length, ?drop_all; simpl.


Lemma single_vc_model W self rq st :
  vc_model (single W self rq st).2 = vc_model st.
Proof. by single_cases. Qed.

Lemma single_loads W self rq st :
  filter (fun ev => is_load ev = true) (new_events st (single W self rq st).2) =
    match embedder_entry W self rq with
    | Some (emb_file, emb_name) =>
        if needs_load st emb_name
        then [EvLoadEmbedder (os_path_join (MODELS_DIR W) [emb_file])]
        else []
    | None => []
    end.
Proof.
  unfold embedder_entry, needs_load.
  single_cases; events.
  all: done.
Qed.

Lemma single_embedder_state W self rq st :
  let st' := (single W self rq st).2 in
  (embedder_model st', loaded_embedder_model st') =
    match embedder_entry W self rq with
    | Some (emb_file, emb_name) =>
        let path := os_path_join (MODELS_DIR W) [emb_file] in
        if needs_load st emb_name
           && bool_decide (load_model_ensemble_and_task W path = None)
        then (Some (Embedder path (is_half W)), emb_name)
        else (embedder_model st, loaded_embedder_model st)
    | None => (embedder_model st, loaded_embedder_model st)
    end.
Proof.
  unfold embedder_entry, needs_load. single_cases. all: try done.
  all: by rewrite ?andb_false_r.
Qed.


Lemma single_pipeline_call W self rq st c :
  EvPipeline c ∈ new_events st (single W self rq st).2 →
  call_f0 c = dict_get (weight self) "f0" (PInt 1) ∧
  call_embedder_name c = embedder_name self ∧
  call_net_g c = net_g self.
Proof.
  single_cases; events; intros Hin.
  all: repeat (apply elem_of_cons in Hin as [Hin|Hin]; [by simplify_eq|]).
  all: by apply elem_of_nil in Hin.
Qed.





(** ** Properties of the path functions *)



Lemma append_cons (x : ascii) (a b : string) : String x a ++ b = String x (a ++ b).
Proof. reflexivity. Qed.

Lemma string_app_assoc (a b c : string) : (a ++ b) ++ c = a ++ (b ++ c).
Proof.
  induction a as [|x a IH]; [done|]. rewrite !append_cons. by f_equal.
Qed.

Lemma string_app_nonempty (a b : string) : b ≠ "" → String.eqb (a ++ b) "" = false.
Proof.
  intros Hb. apply String.eqb_neq. destruct a; [done|].
  rewrite append_cons. discriminate.
Qed.

Lemma ends_with_sep_app (a b : string) :
  b ≠ "" → ends_with_sep (a ++ b) = ends_with_sep b.
Proof.
  intros Hb. induction a as [|x a IH]; [done|].
  rewrite append_cons. simpl. rewrite IH.
  destruct (a ++ b) eqn:E; [|done].
  destruct a; [done|]. rewrite append_cons in E. discriminate.
Qed.

Lemma starts_with_sep_app (a b : string) :
  starts_with_sep (a ++ b) =
    if String.eqb a "" then starts_with_sep b else starts_with_sep a.
Proof. by destruct a. Qed.

Lemma starts_with_sep_slice_to k p :
  starts_with_sep p = false → starts_with_sep (slice_to k p) = false.
Proof. by destruct k, p. Qed.

Lemma splitext_relative p :
  starts_with_sep p = false → starts_with_sep (os_path_splitext p).1 = false.
Proof.
  intros Hp. unfold os_path_splitext.
  destruct (_ && _); simpl; [by apply starts_with_sep_slice_to | done].
Qed.

Lemma join_step_relative dir b :
  starts_with_sep b = false → join_step dir b = dir_prefix dir ++ b.
Proof.
  intros Hb. unfold join_step, dir_prefix. rewrite Hb.
  destruct (_ || _); [done|]. by rewrite string_app_assoc.
Qed.

Lemma join_step_under dir b :
  dir ≠ "" → ends_with_sep dir = false → starts_with_sep b = false →
  join_step dir b = dir ++ "/" ++ b.
Proof.
  intros Hd He Hb. unfold join_step. rewrite Hb, He.
  apply String.eqb_neq in Hd. by rewrite Hd.
Qed.

Lemma os_path_join_checkpoints_2 root x :
  starts_with_sep x = false →
  os_path_join root ["checkpoints"; x] = dir_prefix root ++ "checkpoints/" ++ x.
Proof.
  intros Hx. unfold os_path_join. simpl.
  rewrite (join_step_relative root "checkpoints") by done.
  rewrite join_step_under; [by rewrite string_app_assoc | | | done].
  - apply String.eqb_neq. by apply string_app_nonempty.
  - by rewrite ends_with_sep_app.
Qed.

Lemma os_path_join_checkpoints_3 root x y :
  starts_with_sep x = false → x ≠ "" → ends_with_sep x = false →
  starts_with_sep y = false →
  os_path_join root ["checkpoints"; x; y] =
    dir_prefix root ++ "checkpoints/" ++ x ++ "/" ++ y.
Proof.
  intros Hx Hxne Hxe Hy.
  change (os_path_join root ["checkpoints"; x; y])
    with (join_step (os_path_join root ["checkpoints"; x]) y).
  rewrite os_path_join_checkpoints_2 by done.
  rewrite join_step_under; [by rewrite !string_app_assoc | | | done].
  - apply String.eqb_neq. apply string_app_nonempty.
    destruct x; [done | discriminate].
  - rewrite ends_with_sep_app by done.
    change ("checkpoints/" ++ x) with ("checkpoints" ++ "/" ++ x).
    rewrite !ends_with_sep_app; done.
Qed.



Lemma index_paths_explicit (W : World) (self : VC_MODEL) (speaker_id : Z) (ext : string) :
  starts_with_sep (model_name self) = false →
  starts_with_sep ext = false →
  let basename := (os_path_splitext (model_name self)).1 in
  os_path_join (MODELS_DIR W)
    [ "checkpoints"; basename ++ "_index";
      basename ++ "." ++ str_of_int speaker_id ++ ext ] =
    dir_prefix (MODELS_DIR W) ++ "checkpoints/" ++ basename ++ "_index/"
      ++ basename ++ "." ++ str_of_int speaker_id ++ ext
  ∧ os_path_join (MODELS_DIR W) ["checkpoints"; basename ++ ext] =
    dir_prefix (MODELS_DIR W) ++ "checkpoints/" ++ basename ++ ext.
Proof.
  intros Hrel Hext basename.
  assert (Hb : starts_with_sep basename = false) by by apply splitext_relative.
  assert (Hany : ∀ t, starts_with_sep t = false → starts_with_sep (basename ++ t) = false).
  { intros t Ht. rewrite starts_with_sep_app. by destruct (String.eqb basename ""). }
  split.
  - rewrite os_path_join_checkpoints_3.
    + by rewrite !string_app_assoc.
    + by apply Hany.
    + apply String.eqb_neq. by apply string_app_nonempty.
    + by rewrite ends_with_sep_app.
    + by apply Hany.
  - rewrite os_path_join_checkpoints_2; [done|]. by apply Hany.
Qed.

(** ** Properties of the scan of the output directory *)

Lemma scan_step_prefix index file :
  scan_step index file =
    match numeric_prefix file with
    | Some k => N.max index k
    | None => index
    end.
Proof.
  unfold scan_step, numeric_prefix.
  destruct (re_match_digits file) as [d|]; simpl; [|done].
  destruct (N.ltb_spec index (int_of_digits d));
    [rewrite N.max_r | rewrite N.max_l]; (done || lia).
Qed.

Lemma scan_fold_max files : ∀ index,
  let n := foldl scan_step index files in
  (index ≤ n)%N ∧
  (∀ file k, file ∈ files → numeric_prefix file = Some k → (k ≤ n)%N) ∧
  (n = index ∨ ∃ file, file ∈ files ∧ numeric_prefix file = Some n).
Proof.
  induction files as [|f files IH]; intros index; simpl.
  - split; [lia|]. split; [|by left]. intros file k Hin. by apply elem_of_nil in Hin.
  - destruct (IH (scan_step index f)) as (Hle & Hub & Hwit). clear IH.
    assert (Hstep : (index ≤ scan_step index f)%N ∧
              (∀ k, numeric_prefix f = Some k → (k ≤ scan_step index f)%N) ∧
              (scan_step index f = index ∨ numeric_prefix f = Some (scan_step index f))).
    { rewrite scan_step_prefix. destruct (numeric_prefix f) as [kf|].
      - split; [apply N.le_max_l|]. split.
        + intros k [= <-]. apply N.le_max_r.
        + destruct (N.max_spec index kf) as [[_ ->]|[_ ->]]; [by right | by left].
      - split; [done|]. split; [done | by left]. }
    destruct Hstep as (Hs1 & Hs2 & Hs3).
    split; [by etrans|]. split.
    + intros file k [->|Hin]%elem_of_cons Hk; [|by eapply Hub].
      etrans; [by apply Hs2 | done].
    + destruct Hwit as [Heq|(file & Hin & Hk)].
      * rewrite Heq. destruct Hs3 as [->|Hs3]; [by left|].
        right. exists f. split; [by left | done].
      * right. exists file. split; [by right | done].
Qed.

Lemma scan_index_max files : is_max_prefix files (scan_index files).
Proof.
  destruct (scan_fold_max files 0%N) as (_ & Hub & Hwit). by split.
Qed.

(** ** Properties of the embedder registry *)

Lemma lookup_embedder_Some name emb_file emb_name :
  lookup_embedder name = Ok (Some (emb_file, emb_name)) →
  name ∈ supported_embedders ∧ (emb_file, emb_name) ∈ registry_files.
Proof.
  unfold lookup_embedder. destruct (hashable name); [|discriminate].
  destruct name; try discriminate. intros [= H].
  unfold load_emb_dic in H. simpl in H.
  unfold supported_embedders, registry_files.
  repeat (apply lookup_insert_Some in H as [[<- [= <- <-]]|[_ H]];
          [split; repeat first [by left | right] |]).
  by rewrite lookup_empty in H.
Qed.


Lemma registry_consistent_initial W out :
  registry_consistent W (initial_state out).
Proof. intros e He. discriminate He. Qed.

Lemma registry_consistent_same W st st' :
  (embedder_model st', loaded_embedder_model st')
    = (embedder_model st, loaded_embedder_model st) →
  registry_consistent W st → registry_consistent W st'.
Proof.
  intros [= H1 H2] Hst e He. rewrite H2. apply Hst. by rewrite <- H1.
Qed.

Lemma registry_consistent_loaded W st emb_file emb_name :
  (emb_file, emb_name) ∈ registry_files →
  (embedder_model st, loaded_embedder_model st)
    = (Some (Embedder (os_path_join (MODELS_DIR W) [emb_file]) (is_half W)),
       emb_name) →
  registry_consistent W st.
Proof.
  intros Hin [= H1 H2] e He. rewrite H2. exists emb_file.
  split; [done|]. rewrite H1 in He. by injection He as <-.
Qed.

Lemma single_consistent W self rq st :
  registry_consistent W st → registry_consistent W (single W self rq st).2.
Proof.
  intros Hst.
  pose proof (single_embedder_state W self rq st) as Hs. cbv zeta in Hs.
  destruct (embedder_entry W self rq) as [[file fam]|] eqn:He;
    [|by eapply registry_consistent_same].
  destruct (_ && _); [|by eapply registry_consistent_same].
  eapply registry_consistent_loaded; [|done].
  unfold embedder_entry in He.
  destruct (String.eqb _ _); [done|].
  destruct (load_audio _ _ _); [|done].
  destruct (lookup_embedder _) as [[entry|]|] eqn:Hl; try done.
  injection He as ->. by apply lookup_embedder_Some in Hl as [_ ?].
Qed.

Lemma load_model_fields W name st :
  let st' := (load_model W name st).2 in
  embedder_model st' = embedder_model st ∧
  loaded_embedder_model st' = loaded_embedder_model st ∧
  out_dir st' = out_dir st ∧ trace st' = trace st.
Proof.
  unfold load_model, bind, lift, modify. by destruct (get_vc_model W name).
Qed.

Lemma load_model_consistent W name st :
  registry_consistent W st → registry_consistent W (load_model W name st).2.
Proof.
  destruct (load_model_fields W name st) as (H1 & H2 & _).
  apply registry_consistent_same. by rewrite H1, H2.
Qed.

Lemma load_embedder_consistent W emb_file emb_name st :
  (emb_file, emb_name) ∈ registry_files →
  registry_consistent W st →
  registry_consistent W (load_embedder W emb_file emb_name st).2.
Proof.
  intros Hin Hst. unfold load_embedder, bind, emit, check, modify.
  destruct (load_model_ensemble_and_task W _); simpl.
  - by eapply registry_consistent_same.
  - by eapply registry_consistent_loaded.
Qed.

Lemma load_hubert_consistent W st :
  registry_consistent W st → registry_consistent W (load_hubert W st).2.
Proof.
  apply (load_embedder_consistent W "hubert_base.pt" "hubert_base").
  unfold registry_files. by left.
Qed.

Lemma load_contentvec_consistent W st :
  registry_consistent W st → registry_consistent W (load_contentvec W st).2.
Proof.
  apply (load_embedder_consistent W "checkpoint_best_legacy_500.pt" "contentvec").
  unfold registry_files. right. by left.
Qed.

(** ** The claims about session load *)

Lemma build_kwargs_lookup W cls p kwargs k :
  build_kwargs W cls (PDict p) = Ok kwargs → k ≠ "is_half" →
  kwargs !! k = p !! k.
Proof.
  unfold build_kwargs. simpl. intros H Hk.
  destruct cls; [|by injection H as <-].
  destruct (p !! "is_half"); [discriminate H|]. injection H as <-.
  by rewrite lookup_insert_ne.
Qed.

Lemma spk_embed_dim_final (p0 : gmap string pyval) (x : pyval) :
  let p1 := <["spk_embed_dim" := x]> p0 in
  (if bool_decide (is_Some (p1 !! "emb_channels")) then p1
   else <["emb_channels" := PInt 256]> p1) !! "spk_embed_dim" = Some x.
Proof.
  intros p1. destruct (bool_decide _).
  - apply lookup_insert_eq.
  - rewrite lookup_insert_ne by done. apply lookup_insert_eq.
Qed.

(** C3.  When a checkpoint loads, the speaker count the session reports
    ([n_spk]) and the [spk_embed_dim] of its runtime configuration (the
    parameter map kept by the session, and the keyword arguments the
    network was built with) are the leading dimension of the checkpoint's
    [emb_g.weight] tensor, whatever the configuration array or a stored
    parameter map says. *)
Theorem speaker_dimension_from_tensor (W : World) (name : string)
    (state_dict : gmap string pyval) (m : VC_MODEL) :
  VC_MODEL_init W name state_dict = Ok m →
  ∃ (wt : gmap string pyval) (d : N) (shape : list N) (data : list pyval),
    state_dict !! "weight" = Some (PDict wt) ∧
    wt !! "emb_g.weight" = Some (PTensor (d :: shape) data) ∧
    n_spk m = PInt (Z.of_N d) ∧
    (∃ p, weight m !! "params" = Some (PDict p) ∧
          p !! "spk_embed_dim" = Some (PInt (Z.of_N d))) ∧
    syn_kwargs (net_g m) !! "spk_embed_dim" = Some (PInt (Z.of_N d)).
Proof.
  intros H. apply VC_MODEL_init_Ok in H
    as (p0 & wt & d & shape & data & sr & pitch & kwargs & H).
  cbv zeta in H. destruct H as (_ & _ & _ & Hw & He & _ & Hkw & ->).
  exists wt, d, shape, data. simpl.
  split; [done|]. split; [done|]. split; [done|]. split.
  - eexists. split; [apply lookup_insert_eq | apply spk_embed_dim_final].
  - rewrite (build_kwargs_lookup _ _ _ _ "spk_embed_dim" Hkw) by done.
    apply spk_embed_dim_final.
Qed.

Lemma example_session_loads :
  VC_MODEL_init example_world "modelA.pth" legacy_checkpoint
    = Ok (session_of "modelA.pth").
Proof. vm_refl. Qed.

Lemma speaker_dimension_from_tensor_witness :
  ∃ (wt : gmap string pyval) (d : N) (shape : list N) (data : list pyval),
    legacy_checkpoint !! "weight" = Some (PDict wt) ∧
    wt !! "emb_g.weight" = Some (PTensor (d :: shape) data) ∧
    n_spk (session_of "modelA.pth") = PInt (Z.of_N d) ∧
    (∃ p, weight (session_of "modelA.pth") !! "params" = Some (PDict p) ∧
          p !! "spk_embed_dim" = Some (PInt (Z.of_N d))) ∧
    syn_kwargs (net_g (session_of "modelA.pth")) !! "spk_embed_dim"
      = Some (PInt (Z.of_N d)).
Proof.
  apply (speaker_dimension_from_tensor example_world "modelA.pth" legacy_checkpoint).
  vm_refl.
Defined.

(** The legacy checkpoint records 109 speakers and has a table of 4 rows:
    the session reports 4. *)
Lemma stored_dimension_overridden :
  normalized_param legacy_checkpoint "spk_embed_dim" = Some (PInt 109) ∧
  n_spk (session_of "modelA.pth") = PInt 4 ∧
  syn_kwargs (net_g (session_of "modelA.pth")) !! "spk_embed_dim" = Some (PInt 4).
Proof. split; [vm_refl|]. split; vm_refl. Qed.

(** [load_model] replaces the active session only by one that
    [VC_MODEL.__init__] has returned; when it raises, the state is as it
    was. *)
Lemma load_model_outcome (W : World) (name : string) (st : state) :
  match load_model W name st with
  | (Ok _, st') =>
      ∃ state_dict m,
        torch_load W (os_path_join (MODELS_DIR W) ["checkpoints"; name])
          = Ok state_dict ∧
        VC_MODEL_init W name state_dict = Ok m ∧
        st' = set_vc_model m st
  | (Err _, st') => st' = st
  end.
Proof.
  unfold load_model, bind, lift, modify, get_vc_model.
  destruct (torch_load W _) as [sd|e]; simpl; [|done].
  destruct (VC_MODEL_init W name sd) as [m|e] eqn:Hm; simpl; [|done].
  by exists sd, m.
Qed.

(** The same through [load_model]: the session made active reports the
    leading dimension of the speaker table of the checkpoint read. *)
Lemma loaded_session_speaker_count (W : World) (name : string) (st st' : state) :
  load_model W name st = (Ok tt, st') →
  ∃ state_dict m wt d shape data,
    torch_load W (os_path_join (MODELS_DIR W) ["checkpoints"; name])
      = Ok state_dict ∧
    vc_model st' = Some m ∧
    state_dict !! "weight" = Some (PDict wt) ∧
    wt !! "emb_g.weight" = Some (PTensor (d :: shape) data) ∧
    n_spk m = PInt (Z.of_N d).
Proof.
  intros Hl. pose proof (load_model_outcome W name st) as Hout.
  rewrite Hl in Hout. destruct Hout as (sd & m & Hsd & Hm & ->).
  apply VC_MODEL_init_Ok in Hm
    as (p0 & wt & d & shape & data & sr & pitch & kwargs & Hm).
  cbv zeta in Hm. destruct Hm as (_ & _ & _ & Hw & He & _ & _ & Hm).
  exists sd, m, wt, d, shape, data. by rewrite Hm.
Qed.

Lemma weight_f0_preserved W name state_dict m :
  VC_MODEL_init W name state_dict = Ok m →
  weight m !! "f0" = state_dict !! "f0" ∧
  embedder_name m = dict_get state_dict "embedder_name" (PStr "hubert_base") ∧
  ∃ pitch, eq_one_truth (dict_get state_dict "f0" (PInt 1)) = Ok pitch ∧
    syn_class (net_g m) = if pitch then SynthesizerTrnMs256NSFSid
                          else SynthesizerTrnMs256NSFSidNono.
Proof.
  intros H. apply VC_MODEL_init_Ok in H
    as (p0 & wt & d & shape & data & sr & pitch & kwargs & H).
  cbv zeta in H. destruct H as (_ & _ & _ & _ & _ & Hp & _ & ->). simpl.
  split; [|split; [done | by exists pitch]].
  rewrite lookup_insert_ne by done. by apply update_state_dict_other.
Qed.






(** The first conversion on the example session, from the state of a
    freshly imported module. *)
Lemma first_conversion_uses_hubert_base :
  let r := single example_world (session_of "modelA.pth") example_request
             (initial_state None) in
  r.1 = Ok [0; 0; 0]%Z ∧
  embedder_model r.2 = Some (Embedder "models/hubert_base.pt" false) ∧
  loaded_embedder_model r.2 = "hubert_base" ∧
  out_dir r.2 = Some ["1-modelA-voice.wav"].
Proof. repeat split; vm_refl. Qed.

(** ** The claim about a checkpoint that is too short *)

(** C7.  When a checkpoint carries no parameter map and its configuration
    array has fewer than 18 entries (so that the array runs out at a field
    that reads a slot), normalization raises [IndexError] and yields no
    parameter map, and [load_model] raises it and leaves the whole state,
    the active session included, as it was; whenever [load_model] raises,
    the state is as it was. *)
Theorem short_config_fails_load (W : World) (name : string)
    (state_dict : gmap string pyval) (config : list pyval) (st : state) :
  torch_load W (os_path_join (MODELS_DIR W) ["checkpoints"; name]) = Ok state_dict →
  has_params state_dict = false →
  state_dict !! "config" = Some (PList config) →
  List.length config < 18 →
  ls_exn (update_state_dict state_dict) = Some IndexError ∧
  normalized_params state_dict = None ∧
  load_model W name st = (Err IndexError, st) ∧
  (∀ other e st', load_model W other st = (Err e, st') → st' = st).
Proof.
  intros Hload Hp Hc Hlen.
  pose proof (fill_params_short config Hlen) as Hfill.
  assert (Hexn : ls_exn (update_state_dict state_dict) = Some IndexError).
  { rewrite (update_state_dict_fill _ config Hp Hc).
    by destruct (fill_params _ _ _ _) as [[p n] e]. }
  split; [done|]. split; [|split].
  - unfold normalized_params. by rewrite Hexn.
  - unfold load_model, bind, lift, get_vc_model. rewrite Hload. simpl.
    unfold VC_MODEL_init. by rewrite Hexn.
  - intros other e st' Hfail.
    pose proof (load_model_outcome W other st) as Hout.
    by rewrite Hfail in Hout.
Qed.

Lemma short_config_fails_load_witness :
  let st := State (Some (session_of "modelA.pth")) None "" None [] in
  ls_exn (update_state_dict (config_only 5)) = Some IndexError ∧
  normalized_params (config_only 5) = None ∧
  load_model example_world "short.pth" st = (Err IndexError, st) ∧
  (∀ other e st', load_model example_world other st = (Err e, st') → st' = st).
Proof.
  intros st.
  apply (short_config_fails_load example_world "short.pth" (config_only 5)
           (count_config 5)); [vm_refl | vm_refl | vm_refl | vm_compute; lia].
Defined.

(** ** The claims about validation in [single] *)



(** ** The claim about when the embedder is loaded *)



Lemma embedder_entry_lookup W self rq entry :
  embedder_entry W self rq = Some entry →
  lookup_embedder (embedder_name self) = Ok (Some entry).
Proof.
  unfold embedder_entry. destruct (String.eqb _ _); [done|].
  destruct (load_audio _ _ _); [|done].
  by destruct (lookup_embedder _) as [[e|]|]; intros [= ->].
Qed.

Lemma single_loads_count W self rq st :
  loads_between st (single W self rq st).2 =
    match embedder_entry W self rq with
    | Some (_, emb_name) => if needs_load st emb_name then 1 else 0
    | None => 0
    end.
Proof.
  unfold loads_between. rewrite single_loads.
  destruct (embedder_entry W self rq) as [[file fam]|]; [|done].
  by destruct (needs_load st fam).
Qed.




(** ** The claim about index resolution *)



(** ** The claim about the numbering of the output *)




Lemma output_numbering_examples :
  let run files :=
    out_dir (single example_world (session_of "modelA.pth") example_request
               (initial_state files)).2 in
  run (Some ["3-foo-bar.wav"; "7-baz-qux.wav"])
    = Some ["3-foo-bar.wav"; "7-baz-qux.wav"; "8-modelA-voice.wav"] ∧
  run (Some []) = Some ["1-modelA-voice.wav"] ∧
  run None = Some ["1-modelA-voice.wav"].
Proof. repeat split; vm_refl. Qed.

(** ** Further properties of [update_state_dict] *)

Lemma update_step_Ok sd n i key sd' n' :
  update_step sd n i key = Ok (sd', n') →
  ∃ p x, sd !! "params" = Some (PDict p) ∧
         sd' = <["params" := PDict (<[key := x]> p)]> sd.
Proof.
  unfold update_step. intros H.
  rbind_inv H. rbind_inv H.
  destruct (_ && _).
  - rbind_inv H. injection H as <- <-.
    apply store_param_Ok in E1 as (p & Hp & ->). eauto.
  - do 3 rbind_inv H. injection H as <- <-.
    apply store_param_Ok in E3 as (p & Hp & ->). eauto.
Qed.

Lemma update_loop_params iks : ∀ sd n p,
  sd !! "params" = Some (PDict p) →
  ∃ p', ls_dict (update_loop iks sd n) !! "params" = Some (PDict p').
Proof.
  induction iks as [|[i key] rest IH]; intros sd n p Hp; simpl; [eauto|].
  destruct (update_step sd n i key) as [[sd' n']|e] eqn:Hs; [|simpl; eauto].
  apply update_step_Ok in Hs as (q & x & _ & ->).
  eapply IH. apply lookup_insert_eq.
Qed.

Lemma update_state_dict_has_params sd :
  ls_exn (update_state_dict sd) = None →
  has_params (ls_dict (update_state_dict sd)) = true.
Proof.
  unfold update_state_dict. destruct (has_params sd) eqn:Hp; [done|].
  intros _.
  destruct (update_loop_params (enumerate keys) (<["params" := PDict ∅]> sd) 0 ∅)
    as [p' Hp']; [apply lookup_insert_eq|].
  unfold has_params. by rewrite Hp'.
Qed.

(** X1.  [update_state_dict] returns at once on a dictionary that holds a
    parameter map other than [None]; a call that raised nothing has left
    such a map, so that a second call changes nothing. *)
Theorem update_state_dict_idempotent (state_dict : gmap string pyval) :
  ls_exn (update_state_dict state_dict) = None →
  update_state_dict (ls_dict (update_state_dict state_dict))
    = LoopState (ls_dict (update_state_dict state_dict)) 0 None.
Proof.
  intros Hok. apply update_state_dict_has_params in Hok.
  unfold update_state_dict at 1. by rewrite Hok.
Qed.

Lemma update_state_dict_idempotent_witness :
  update_state_dict (ls_dict (update_state_dict legacy_checkpoint))
    = LoopState (ls_dict (update_state_dict legacy_checkpoint)) 0 None.
Proof. apply update_state_dict_idempotent. vm_refl. Defined.

(** X2.  Whatever the dictionary holds and whether or not the call
    raises, [update_state_dict] changes no entry other than [params]: the
    configuration array, the weights, [f0] and [embedder_name] are as they
    were. *)
Theorem update_state_dict_keeps_other_entries (state_dict : gmap string pyval)
    (k : string) :
  k ≠ "params" →
  ls_dict (update_state_dict state_dict) !! k = state_dict !! k.
Proof. apply update_state_dict_other. Qed.

Lemma update_state_dict_keeps_other_entries_witness :
  ls_dict (update_state_dict (config_only 5)) !! "config"
    = config_only 5 !! "config".
Proof. by apply update_state_dict_keeps_other_entries. Defined.

Lemma zip_keys_lookup_None (ks : list string) (config : list pyval) (key : string) :
  key ∉ ks → (list_to_map (zip ks config) : gmap string pyval) !! key = None.
Proof.
  intros Hk. apply not_elem_of_list_to_map_1. intros Hin. apply Hk.
  apply list_elem_of_fmap in Hin as ([k v] & -> & Hin).
  by apply elem_of_zip_l in Hin.
Qed.

Lemma other_keys_elem key :
  key ∈ other_keys ↔ key ∈ keys ∧ key ≠ "emb_channels".
Proof. unfold other_keys. rewrite list_elem_of_filter. tauto. Qed.

(** X3.  On a checkpoint without a parameter map whose configuration is a
    list of at least 18 entries, normalization yields a map whose keys are
    exactly the 19 canonical field names: no field is left out and no
    other key is added, however long the list is. *)
Theorem normalization_fills_exactly_keys (state_dict : gmap string pyval)
    (config : list pyval) :
  has_params state_dict = false →
  state_dict !! "config" = Some (PList config) →
  18 ≤ List.length config →
  ∃ p, normalized_params state_dict = Some p ∧
       ∀ key, is_Some (p !! key) ↔ key ∈ keys.
Proof.
  intros Hp Hc Hge.
  destruct (normalization_all_or_nothing state_dict config Hp Hc)
    as [[Hlt _]|(_ & p & Hn & Hall)]; [lia|].
  exists p. split; [done|]. intros key. split; [|apply Hall].
  intros Hsome. destruct (decide (key ∈ keys)) as [|Hnot]; [done|exfalso].
  rewrite (normalized_params_fill _ config Hp Hc) in Hn.
  destruct (decide (List.length config = 19)) as [H19|H19].
  - rewrite (fill_params_19 config H19) in Hn. apply (inj Some) in Hn. subst p.
    rewrite zip_keys_lookup_None in Hsome by done. by destruct Hsome.
  - rewrite (fill_params_not_19 config Hge H19) in Hn. apply (inj Some) in Hn.
    subst p.
    rewrite lookup_insert_ne in Hsome.
    + rewrite zip_keys_lookup_None in Hsome; [by destruct Hsome|].
      rewrite other_keys_elem. tauto.
    + intros <-. apply Hnot. by apply (bool_decide_unpack _).
Qed.

Lemma normalization_fills_exactly_keys_witness :
  ∃ p, normalized_params legacy_checkpoint = Some p ∧
       ∀ key, is_Some (p !! key) ↔ key ∈ keys.
Proof.
  apply (normalization_fills_exactly_keys legacy_checkpoint legacy_config);
    [vm_refl | vm_refl | vm_compute; lia].
Defined.

(** X4.  A checkpoint with neither a parameter map nor a configuration
    array makes [update_state_dict] raise [KeyError] at the first field,
    after it has stored an empty parameter map; [VC_MODEL.__init__] and
    [load_model] raise the same exception, and [load_model] leaves the
    state as it was. *)
Theorem missing_config_raises_KeyError (W : World) (name : string)
    (state_dict : gmap string pyval) (st : state) :
  has_params state_dict = false →
  state_dict !! "config" = None →
  update_state_dict state_dict
    = LoopState (<["params" := PDict ∅]> state_dict) 0
                (Some (KeyError (PStr "config"))) ∧
  VC_MODEL_init W name state_dict = Err (KeyError (PStr "config")) ∧
  (torch_load W (os_path_join (MODELS_DIR W) ["checkpoints"; name]) = Ok state_dict →
   load_model W name st = (Err (KeyError (PStr "config")), st)).
Proof.
  intros Hp Hc.
  assert (Hu : update_state_dict state_dict
    = LoopState (<["params" := PDict ∅]> state_dict) 0
                (Some (KeyError (PStr "config")))).
  { unfold update_state_dict. rewrite Hp. simpl.
    unfold update_step, dict_getitem. rewrite lookup_insert_ne by done.
    by rewrite Hc. }
  split; [done|].
  assert (Hi : VC_MODEL_init W name state_dict = Err (KeyError (PStr "config"))).
  { unfold VC_MODEL_init. by rewrite Hu. }
  split; [done|]. intros Hload.
  unfold load_model, bind, lift, get_vc_model. rewrite Hload. simpl. by rewrite Hi.
Qed.

Lemma missing_config_raises_KeyError_witness :
  update_state_dict ∅
    = LoopState (<["params" := PDict ∅]> ∅) 0 (Some (KeyError (PStr "config"))) ∧
  VC_MODEL_init example_world "x.pth" ∅ = Err (KeyError (PStr "config")).
Proof.
  destruct (missing_config_raises_KeyError example_world "x.pth" ∅
              (initial_state None)) as (H1 & H2 & _); [vm_refl | done |].
  by split.
Defined.

(** ** Further properties of [VC_MODEL.__init__] *)

Lemma update_state_dict_stored state_dict :
  has_params state_dict = true →
  update_state_dict state_dict = LoopState state_dict 0 None.
Proof. intros Hp. unfold update_state_dict. by rewrite Hp. Qed.

Lemma build_kwargs_Ok W cls p kwargs :
  build_kwargs W cls (PDict p) = Ok kwargs →
  kwargs = match cls with
           | SynthesizerTrnMs256NSFSid => <["is_half" := PBool (is_half W)]> p
           | SynthesizerTrnMs256NSFSidNono => p
           end.
Proof.
  unfold build_kwargs. simpl. destruct cls; [|by intros [= <-]].
  destruct (p !! "is_half"); [discriminate|]. by intros [= <-].
Qed.

Lemma backfilled_lookup (p0 : gmap string pyval) (x : pyval) (k : string) :
  let p1 := <["spk_embed_dim" := x]> p0 in
  let p2 := if bool_decide (is_Some (p1 !! "emb_channels")) then p1
            else <["emb_channels" := PInt 256]> p1 in
  (k ≠ "spk_embed_dim" → k ≠ "emb_channels" → p2 !! k = p0 !! k) ∧
  p2 !! "emb_channels" = Some (default (PInt 256) (p0 !! "emb_channels")).
Proof.
  intros p1 p2. subst p2.
  assert (H1 : p1 !! "emb_channels" = p0 !! "emb_channels")
    by (unfold p1; by rewrite lookup_insert_ne).
  destruct (bool_decide (is_Some (p1 !! "emb_channels"))) eqn:Hb.
  - apply bool_decide_eq_true in Hb as [v Hv]. split.
    + intros Hk _. unfold p1. by rewrite lookup_insert_ne.
    + rewrite Hv. rewrite H1 in Hv. by rewrite Hv.
  - apply bool_decide_eq_false in Hb. split.
    + intros Hk1 Hk2. rewrite lookup_insert_ne by done.
      unfold p1. by rewrite lookup_insert_ne.
    + rewrite lookup_insert_eq. rewrite H1 in Hb.
      destruct (p0 !! "emb_channels"); [|done]. exfalso. apply Hb. eauto.
Qed.

(** X5.  A checkpoint that carries a parameter map is loaded from that map
    and its configuration array is not consulted: the target sample rate
    is the map's [sr], the network is built with the map's entries
    ([spk_embed_dim] and the [is_half] keyword apart), and [emb_channels]
    is 256 when the map has no such entry and the map's value otherwise. *)
Theorem stored_params_take_precedence (W : World) (name : string)
    (state_dict : gmap string pyval) (m : VC_MODEL) :
  has_params state_dict = true →
  VC_MODEL_init W name state_dict = Ok m →
  ∃ p, state_dict !! "params" = Some (PDict p) ∧
       p !! "sr" = Some (tgt_sr m) ∧
       syn_kwargs (net_g m) !! "emb_channels"
         = Some (default (PInt 256) (p !! "emb_channels")) ∧
       (∀ k, k ≠ "spk_embed_dim" → k ≠ "emb_channels" → k ≠ "is_half" →
          syn_kwargs (net_g m) !! k = p !! k) ∧
       (∀ k, k ≠ "params" → weight m !! k = state_dict !! k).
Proof.
  intros Hp Hm. apply VC_MODEL_init_Ok in Hm
    as (p0 & wt & d & shape & data & sr & pitch & kwargs & H).
  cbv zeta in H. rewrite (update_state_dict_stored _ Hp) in H. simpl in H.
  destruct H as (_ & Hparams & Hsr & _ & _ & _ & Hkw & ->). simpl.
  destruct (backfilled_lookup p0 (PInt (Z.of_N d)) "emb_channels") as [_ Hemb].
  exists p0. split; [done|]. split; [done|]. split; [|split].
  - rewrite (build_kwargs_lookup _ _ _ _ "emb_channels" Hkw) by done. apply Hemb.
  - intros k Hk1 Hk2 Hk3.
    rewrite (build_kwargs_lookup _ _ _ _ k Hkw) by done.
    by apply (backfilled_lookup p0 (PInt (Z.of_N d)) k).
  - intros k Hk. by rewrite lookup_insert_ne.
Qed.

Lemma stored_params_take_precedence_witness :
  ∃ m, VC_MODEL_init example_world "modelS.pth" stored_checkpoint = Ok m ∧
       tgt_sr m = PInt 48000 ∧
       syn_kwargs (net_g m) !! "emb_channels" = Some (PInt 256) ∧
       syn_kwargs (net_g m) !! "spec_channels" = None.
Proof.
  destruct (VC_MODEL_init example_world "modelS.pth" stored_checkpoint)
    as [m|e] eqn:Hm; [|vm_compute in Hm; discriminate Hm].
  exists m. split; [done|].
  destruct (stored_params_take_precedence example_world "modelS.pth"
              stored_checkpoint m) as (p & Hp & Hsr & Hemb & Hk & _);
    [vm_refl | exact Hm |].
  assert (p = {[ "sr" := PInt 48000 ]}) as ->.
  { unfold stored_checkpoint in Hp. rewrite lookup_insert_eq in Hp. congruence. }
  rewrite lookup_singleton_eq in Hsr. injection Hsr as <-.
  split; [done|]. split; [exact Hemb|]. by rewrite Hk.
Defined.

Lemma PDict_inj (p q : gmap string pyval) : PDict p = PDict q → p = q.
Proof. congruence. Qed.

(** X6.  For a checkpoint without a parameter map whose configuration is
    a list, a session that loads takes its target sample rate from the
    last slot the walk reads ([config[18]] for 19 entries, [config[17]]
    otherwise), hands the same rate to the pipeline object, and builds the
    network with the array's first 15 entries and its 17th under their
    field names: of the array, only the stored [spk_embed_dim] is set
    aside. *)
Theorem config_reaches_network (W : World) (name : string)
    (state_dict : gmap string pyval) (config : list pyval) (m : VC_MODEL) :
  has_params state_dict = false →
  state_dict !! "config" = Some (PList config) →
  VC_MODEL_init W name state_dict = Ok m →
  18 ≤ List.length config ∧
  config !! (if decide (List.length config = 19) then 18 else 17)
    = Some (tgt_sr m) ∧
  vc_tgt_sr (vc m) = tgt_sr m ∧
  ∀ j key, j < 17 → keys !! j = Some key → key ≠ "spk_embed_dim" →
    syn_kwargs (net_g m) !! key = config !! j.
Proof.
  intros Hp Hc Hm.
  pose proof Hm as Hm'. apply VC_MODEL_init_Ok in Hm'
    as (p0 & wt & d & shape & data & sr & pitch & kwargs & H).
  cbv zeta in H. destruct H as (Hexn & Hparams & Hsr & _ & _ & _ & Hkw & ->).
  simpl.
  destruct (normalization_all_or_nothing state_dict config Hp Hc)
    as [[_ Hraise]|[Hge _]]; [congruence|].
  split; [done|].
  rewrite (update_state_dict_fill _ config Hp Hc) in Hparams.
  assert (Hp0 : ∀ j key, j < 17 → keys !! j = Some key → p0 !! key = config !! j).
  { intros j key Hj Hkey. destruct (decide (List.length config = 19)) as [H19|H19].
    - rewrite (fill_params_19 config H19) in Hparams.
      cbn [ls_dict] in Hparams. rewrite lookup_insert_eq in Hparams.
      apply (inj Some) in Hparams. apply PDict_inj in Hparams. subst p0.
      by apply zip_keys_lookup; [apply keys_NoDup | rewrite H19 |].
    - rewrite (fill_params_not_19 config Hge H19) in Hparams.
      cbn [ls_dict] in Hparams. rewrite lookup_insert_eq in Hparams.
      apply (inj Some) in Hparams. apply PDict_inj in Hparams. subst p0.
      assert (Ho : other_keys !! j = Some key ∧ key ≠ "emb_channels").
      { do 17 (destruct j as [|j]; [injection Hkey as <-; by split|]). lia. }
      destruct Ho as [Ho Hne]. rewrite lookup_insert_ne by done.
      apply zip_keys_lookup_le; [apply other_keys_NoDup | | done].
      change (List.length other_keys) with 18. lia. }
  split; [|split; [done|]].
  - destruct (decide (List.length config = 19)) as [H19|H19].
    + rewrite (fill_params_19 config H19) in Hparams.
      cbn [ls_dict] in Hparams. rewrite lookup_insert_eq in Hparams.
      apply (inj Some) in Hparams. apply PDict_inj in Hparams. subst p0.
      rewrite <- Hsr. symmetry.
      by apply zip_keys_lookup; [apply keys_NoDup | rewrite H19 |].
    + rewrite (fill_params_not_19 config Hge H19) in Hparams.
      cbn [ls_dict] in Hparams. rewrite lookup_insert_eq in Hparams.
      apply (inj Some) in Hparams. apply PDict_inj in Hparams. subst p0.
      rewrite <- Hsr. rewrite lookup_insert_ne by done. symmetry.
      apply zip_keys_lookup_le; [apply other_keys_NoDup | | done].
      change (List.length other_keys) with 18. lia.
  - intros j key Hj Hkey Hne.
    assert (Hk : key ≠ "emb_channels" ∧ key ≠ "is_half").
    { do 17 (destruct j as [|j]; [injection Hkey as <-; by split|]). lia. }
    destruct Hk as [Hk1 Hk2].
    rewrite (build_kwargs_lookup _ _ _ _ key Hkw) by done.
    rewrite (proj1 (backfilled_lookup p0 (PInt (Z.of_N d)) key)) by done.
    by apply Hp0.
Qed.

Lemma config_reaches_network_witness :
  18 ≤ List.length legacy_config ∧
  legacy_config !! (if decide (List.length legacy_config = 19) then 18 else 17)
    = Some (tgt_sr (session_of "modelA.pth")) ∧
  vc_tgt_sr (vc (session_of "modelA.pth")) = tgt_sr (session_of "modelA.pth") ∧
  ∀ j key, j < 17 → keys !! j = Some key → key ≠ "spk_embed_dim" →
    syn_kwargs (net_g (session_of "modelA.pth")) !! key = legacy_config !! j.
Proof.
  apply (config_reaches_network example_world "modelA.pth" legacy_checkpoint);
    vm_refl.
Defined.

(** X7.  The [f0] entry of the checkpoint (1 when there is none) decides
    both the class of the network and what the pipeline is told: the
    session gets the class that takes a pitch contour exactly when the
    flag equals 1; the keyword arguments of the network are the session's
    parameter map, with [is_half] added for that class only; and every
    call of the pipeline by a conversion on the session receives the flag
    itself. *)
Theorem pitch_flag_decides_class (W : World) (name : string)
    (state_dict : gmap string pyval) (m : VC_MODEL) :
  VC_MODEL_init W name state_dict = Ok m →
  let flag := dict_get state_dict "f0" (PInt 1) in
  ∃ pitch p,
    eq_one_truth flag = Ok pitch ∧
    weight m !! "params" = Some (PDict p) ∧
    net_g m =
      (if pitch
       then Synthesizer SynthesizerTrnMs256NSFSid
              (<["is_half" := PBool (is_half W)]> p) (syn_weight (net_g m))
              (is_half W)
       else Synthesizer SynthesizerTrnMs256NSFSidNono p (syn_weight (net_g m))
              (is_half W)) ∧
    ∀ rq st c, EvPipeline c ∈ new_events st (single W m rq st).2 →
               call_f0 c = flag.
Proof.
  intros Hm flag.
  destruct (weight_f0_preserved W name state_dict m Hm) as (Hf0 & _ & _).
  apply VC_MODEL_init_Ok in Hm
    as (p0 & wt & d & shape & data & sr & pitch & kwargs & H).
  cbv zeta in H. destruct H as (_ & _ & _ & _ & _ & Hpitch & Hkw & ->).
  simpl in *. eexists pitch, _. split; [done|].
  split; [apply lookup_insert_eq|]. split.
  - apply build_kwargs_Ok in Hkw. rewrite Hkw. by destruct pitch.
  - intros rq st c Hc. apply single_pipeline_call in Hc as (-> & _).
    simpl. unfold flag, dict_get. rewrite lookup_insert_ne by done.
    by rewrite update_state_dict_other.
Qed.

Lemma pitch_flag_decides_class_witness :
  ∃ m, VC_MODEL_init example_world "modelN.pth" unpitched_checkpoint = Ok m ∧
       syn_class (net_g m) = SynthesizerTrnMs256NSFSidNono ∧
       ∀ rq st c,
         EvPipeline c ∈ new_events st (single example_world m rq st).2 →
         call_f0 c = PInt 0.
Proof.
  destruct (VC_MODEL_init example_world "modelN.pth" unpitched_checkpoint)
    as [m|e] eqn:Hm; [|vm_compute in Hm; discriminate Hm].
  exists m. split; [done|].
  destruct (pitch_flag_decides_class example_world "modelN.pth"
              unpitched_checkpoint m Hm) as (pitch & p & Hpitch & Hp & Hnet & Hcall).
  assert (pitch = false) as -> by (vm_compute in Hpitch; congruence).
  split; [by rewrite Hnet | exact Hcall].
Defined.

(** ** Further properties of [VC_MODEL.single] *)

Lemma single_pipeline_paths W self rq st c :
  EvPipeline c ∈ new_events st (single W self rq st).2 →
  call_faiss_index_file c = resolved_index W self rq ∧
  call_big_npy_file c = resolved_big_npy W self rq ∧
  call_sid c = sid rq ∧ call_f0_up_key c = f0_up_key rq ∧
  call_f0_method c = f0_method rq ∧ call_f0_file c = f0_file rq ∧
  call_index_rate c = index_rate rq.
Proof.
  single_cases; events; intros Hin.
  all: repeat (apply elem_of_cons in Hin as [Hin|Hin]; [by simplify_eq|]).
  all: by apply elem_of_nil in Hin.
Qed.

(** X8.  In every call of the pipeline made by a conversion, an index
    path or a vector path given in the request is passed on as it is; a
    path is resolved from the model name and the speaker id only when it
    was left empty and automatic loading is on, each of the two paths on
    its own; with automatic loading off, empty paths are passed on
    empty. *)
Theorem explicit_index_paths_override (W : World) (self : VC_MODEL)
    (rq : request) (st : state) (c : vc_call) :
  EvPipeline c ∈ new_events st (single W self rq st).2 →
  (faiss_index_file rq ≠ "" ∨ auto_load_index rq = false →
     call_faiss_index_file c = faiss_index_file rq) ∧
  (big_npy_file rq ≠ "" ∨ auto_load_index rq = false →
     call_big_npy_file c = big_npy_file rq) ∧
  (faiss_index_file rq = "" → auto_load_index rq = true →
     call_faiss_index_file c = get_index_path W self (sid rq)) ∧
  (big_npy_file rq = "" → auto_load_index rq = true →
     call_big_npy_file c = get_big_npy_path W self (sid rq)).
Proof.
  intros Hc. apply single_pipeline_paths in Hc as (-> & -> & _).
  unfold resolved_index, resolved_big_npy.
  split; [|split; [|split]].
  - intros [Hne| ->]; [|by rewrite andb_false_r].
    apply String.eqb_neq in Hne. by rewrite Hne.
  - intros [Hne| ->]; [|by rewrite andb_false_r].
    apply String.eqb_neq in Hne. by rewrite Hne.
  - by intros -> ->.
  - by intros -> ->.
Qed.

Lemma explicit_index_paths_override_witness :
  let st := initial_state None in
  let st' := (single example_world (session_of "modelA.pth") indexed_request st).2 in
  let c := pipeline_call example_world (session_of "modelA.pth") indexed_request
             (Some (Embedder "models/hubert_base.pt" false)) [0; 0; 0]%Z in
  EvPipeline c ∈ new_events st st' ∧
  call_faiss_index_file c = "my.index" ∧
  call_big_npy_file c = "models/checkpoints/modelA.big.npy".
Proof.
  intros st st' c.
  assert (Hin : EvPipeline c ∈ new_events st st').
  { apply list_elem_of_lookup. exists 2. vm_refl. }
  split; [done|].
  destruct (explicit_index_paths_override example_world (session_of "modelA.pth")
              indexed_request st c Hin) as (H1 & _ & _ & H4).
  split.
  - apply H1. left. discriminate.
  - rewrite H4 by reflexivity. vm_refl.
Defined.

(** X9.  A conversion that raises before its export, the export itself
    raising nothing, has written no file: no export is among its events
    and the output directory holds the names it held (at most, the
    directory itself was created); raising or not, a conversion leaves
    the active session as it was. *)
Theorem failed_conversion_writes_nothing (W : World) (self : VC_MODEL)
    (rq : request) (st : state) :
  (∀ path, export_wav W path = None) →
  vc_model (single W self rq st).2 = vc_model st ∧
  ∀ e st', single W self rq st = (Err e, st') →
    default [] (out_dir st') = default [] (out_dir st) ∧
    ∀ ev, ev ∈ new_events st st' → is_export ev = false.
Proof.
  intros Hexp. split; [apply single_vc_model|].
  intros e st' H. revert H. run_single. intros H.
  repeat case_match; simplify_eq/=.
  all: try match goal with
           | Hx : export_wav _ _ = Some _ |- _ =>
               rewrite Hexp in Hx; discriminate Hx
           end.
  all: split; [done|].
  all: events; intros ev Hin.
  all: repeat (apply elem_of_cons in Hin as [->|Hin]; [done|]).
  all: by apply elem_of_nil in Hin.
Qed.

Lemma failed_conversion_writes_nothing_witness :
  let st := State None None "" (Some ["3-foo-bar.wav"]) [] in
  let r := single example_world (session_of "modelC.pth") example_request st in
  vc_model r.2 = vc_model st ∧
  default [] (out_dir r.2) = ["3-foo-bar.wav"] ∧
  ∀ ev, ev ∈ new_events st r.2 → is_export ev = false.
Proof.
  intros st r.
  destruct (failed_conversion_writes_nothing example_world (session_of "modelC.pth")
              example_request st) as [H1 H2]; [done|].
  split; [exact H1|].
  apply (H2 (UnsupportedEmbedder (PStr "wavlm")) r.2). vm_refl.
Defined.

(** ** Decimal numbers in file names *)

Lemma leading_digits_uint (d : Decimal.uint) (rest : string) :
  leading_digits (NilEmpty.string_of_uint d ++ String "-" rest)
    = NilEmpty.string_of_uint d.
Proof. induction d; simpl; rewrite ?append_cons; simpl; by f_equal. Qed.

Lemma int_of_digits_uint_acc (d : Decimal.uint) (acc : positive) :
  int_of_digits_from (Npos acc) (NilEmpty.string_of_uint d)
    = Npos (Pos.of_uint_acc d acc).
Proof.
  revert acc. induction d; intros acc; simpl; [done|..];
    rewrite <- IHd; f_equal; lia.
Qed.

Lemma int_of_digits_uint (d : Decimal.uint) :
  int_of_digits (NilEmpty.string_of_uint d) = Pos.of_uint d.
Proof.
  unfold int_of_digits. induction d; simpl; [done | exact IHd |..];
    apply int_of_digits_uint_acc.
Qed.

Lemma str_of_int_pos (p : positive) :
  str_of_int (Zpos p) = NilEmpty.string_of_uint (Pos.to_uint p).
Proof.
  unfold str_of_int. simpl. unfold NilZero.string_of_uint.
  pose proof (DecimalPos.Unsigned.to_uint_nonnil p).
  by destruct (Pos.to_uint p).
Qed.

Lemma Z_of_N_succ_pos (n : N) : (Z.of_N n + 1)%Z = Zpos (N.succ_pos n).
Proof. destruct n; simpl; lia. Qed.

(** The number a written file's name starts with is read back by the next
    scan. *)
Lemma numeric_prefix_numbered (n : N) (rest : string) :
  numeric_prefix (str_of_int (Z.of_N n + 1) ++ String "-" rest) = Some (n + 1)%N.
Proof.
  rewrite Z_of_N_succ_pos, str_of_int_pos. unfold numeric_prefix, re_match_digits.
  rewrite leading_digits_uint.
  pose proof (DecimalPos.Unsigned.to_uint_nonnil (N.succ_pos n)) as Hnn.
  pose proof (int_of_digits_uint (Pos.to_uint (N.succ_pos n))) as Hi.
  rewrite DecimalPos.Unsigned.of_to in Hi.
  destruct (NilEmpty.string_of_uint (Pos.to_uint (N.succ_pos n))) eqn:Hs.
  - exfalso. by destruct (Pos.to_uint (N.succ_pos n)).
  - simpl. f_equal. rewrite Hi. destruct n; simpl; lia.
Qed.

Lemma output_name_prefix self input_audio files :
  numeric_prefix (output_name self input_audio files)
    = Some (scan_index files + 1)%N.
Proof. unfold output_name. apply numeric_prefix_numbered. Qed.

Lemma output_name_not_listed (self : VC_MODEL) (input_audio : string)
    (files : list string) :
  output_name self input_audio files ∉ files.
Proof.
  destruct (scan_index_max files) as [Hub _].
  pose proof (output_name_prefix self input_audio files) as Hp.
  intros Hin. specialize (Hub _ _ Hin Hp). lia.
Qed.

(** X10.  The name chosen for the output file is never one of the names
    the scan saw in the directory: it starts with a number larger than
    the number any of them starts with, so a conversion does not write
    over a file of the output directory. *)
Theorem output_name_is_fresh (self : VC_MODEL) (input_audio : string)
    (files : list string) :
  (output_name self input_audio files ∉ files) ∧
  ∀ file k, file ∈ files → numeric_prefix file = Some k →
    ∃ k', numeric_prefix (output_name self input_audio files) = Some k' ∧
          (k < k')%N.
Proof.
  destruct (scan_index_max files) as [Hub _].
  pose proof (output_name_prefix self input_audio files) as Hp.
  split; [apply output_name_not_listed|].
  intros file k Hin Hk. eexists. split; [exact Hp|].
  specialize (Hub _ _ Hin Hk). lia.
Qed.

Lemma output_name_is_fresh_witness :
  let files := ["3-foo-bar.wav"; "7-baz-qux.wav"; "notes.txt"] in
  let name := output_name (session_of "modelA.pth") "in/voice.wav" files in
  (name ∉ files) ∧ ∃ k', numeric_prefix name = Some k' ∧ (7 < k')%N.
Proof.
  intros files name.
  destruct (output_name_is_fresh (session_of "modelA.pth") "in/voice.wav" files)
    as [Hfresh Hlarger].
  split; [exact Hfresh|].
  apply (Hlarger "7-baz-qux.wav" 7%N); [|vm_refl].
  right. by left.
Defined.

Lemma has_sep_app (a b : string) : has_sep (a ++ b) = has_sep a || has_sep b.
Proof.
  induction a as [|x a IH]; [done|]. rewrite append_cons. simpl.
  by rewrite IH, orb_assoc.
Qed.











(** ** The registry over the life of the module *)








(** ** [load_model] and the embedder *)

(** X13.  A call of [load_model] that returns makes active the session
    built from the file [checkpoints/<name>] under the models directory,
    and changes nothing else: the embedder registry, the output directory
    and the events are as before.  So a conversion on the new session
    reads no embedder file when an embedder of the family the session
    asks for was loaded before the switch. *)
Theorem load_model_keeps_embedder (W : World) (name : string) (st st' : state) :
  load_model W name st = (Ok tt, st') →
  ∃ state_dict m,
    torch_load W (os_path_join (MODELS_DIR W) ["checkpoints"; name]) = Ok state_dict ∧
    VC_MODEL_init W name state_dict = Ok m ∧
    st' = set_vc_model m st ∧
    ∀ rq emb_file emb_name,
      lookup_embedder (embedder_name m) = Ok (Some (emb_file, emb_name)) →
      needs_load st emb_name = false →
      loads_between st' (single W m rq st').2 = 0.
Proof.
  intros Hl. pose proof (load_model_outcome W name st) as Hout.
  rewrite Hl in Hout. destruct Hout as (sd & m & Hsd & Hm & ->).
  exists sd, m. split; [done|]. split; [done|]. split; [done|].
  intros rq file fam Hlook Hneed. rewrite single_loads_count.
  destruct (embedder_entry W m rq) as [[f n]|] eqn:He; [|done].
  apply embedder_entry_lookup in He. rewrite Hlook in He. injection He as <- <-.
  change (needs_load (set_vc_model m st) fam) with (needs_load st fam).
  by rewrite Hneed.
Qed.

Lemma load_model_keeps_embedder_witness :
  let st := (single example_world (session_of "modelA.pth") example_request
               (initial_state None)).2 in
  ∃ state_dict m,
    torch_load example_world
      (os_path_join (MODELS_DIR example_world) ["checkpoints"; "modelB.pth"])
      = Ok state_dict ∧
    VC_MODEL_init example_world "modelB.pth" state_dict = Ok m ∧
    (load_model example_world "modelB.pth" st).2 = set_vc_model m st ∧
    ∀ rq emb_file emb_name,
      lookup_embedder (embedder_name m) = Ok (Some (emb_file, emb_name)) →
      needs_load st emb_name = false →
      loads_between (load_model example_world "modelB.pth" st).2
        (single example_world m rq (load_model example_world "modelB.pth" st).2).2 = 0.
Proof.
  intros st.
  destruct (load_model_keeps_embedder example_world "modelB.pth" st
              (load_model example_world "modelB.pth" st).2)
    as (sd & m & H1 & H2 & H3 & H4); [vm_refl|].
  exists sd, m. by repeat split.
Defined.

(** ** [load_hubert] and [load_contentvec] *)



(** ** Properties of [get_models] *)

Lemma length_append (a b : string) :
  String.length (a ++ b) = String.length a + String.length b.
Proof. induction a as [|x a IH]; [done|]. rewrite append_cons. simpl. by rewrite IH. Qed.

Lemma slice_from_app (a b : string) : slice_from (String.length a) (a ++ b) = b.
Proof. induction a as [|x a IH]; [by destruct b|]. by rewrite append_cons. Qed.

Lemma slice_to_app (a b : string) : slice_to (String.length a) (a ++ b) = a.
Proof.
  induction a as [|x a IH]; [by destruct b|]. rewrite append_cons. simpl.
  by rewrite IH.
Qed.

Lemma slice_to_from (k : nat) (s : string) : slice_to k s ++ slice_from k s = s.
Proof.
  revert s. induction k as [|k IH]; intros [|x s]; try done.
  simpl. rewrite append_cons. by rewrite IH.
Qed.

Lemma length_slice_from (k : nat) (s : string) :
  String.length (slice_from k s) = String.length s - k.
Proof. revert s. induction k as [|k IH]; intros [|x s]; simpl; try done. Qed.

Lemma endswith_spec (s suffix : string) :
  endswith s suffix = true ↔ ∃ stem, s = stem ++ suffix.
Proof.
  unfold endswith. rewrite andb_true_iff, Nat.leb_le, String.eqb_eq. split.
  - intros [Hle Heq]. exists (slice_to (String.length s - String.length suffix) s).
    rewrite <- (slice_to_from (String.length s - String.length suffix) s) at 1.
    by rewrite Heq.
  - intros [stem ->]. rewrite length_append. split; [lia|].
    replace (String.length stem + String.length suffix - String.length suffix)
      with (String.length stem) by lia.
    apply slice_from_app.
Qed.

Lemma is_model_file_spec (file : string) :
  is_model_file file = true ↔
  ∃ stem, file = stem ++ ".ckpt" ∨ file = stem ++ ".pth".
Proof.
  transitivity (endswith file ".ckpt" = true ∨ endswith file ".pth" = true).
  - unfold is_model_file. rewrite !filter_cons, filter_nil.
    destruct (endswith file ".ckpt") eqn:H1, (endswith file ".pth") eqn:H2;
      repeat case_decide; try done; simpl; intuition congruence.
  - rewrite !endswith_spec. split.
    + intros [[stem ->]|[stem ->]]; exists stem; tauto.
    + intros [stem [->| ->]]; [left | right]; by exists stem.
Qed.

(** X15.  [get_models] creates its directory when it is missing and leaves
    its entries as they are; it returns, in the order of the listing, the
    entries whose name ends in [.ckpt] or in [.pth], and nothing else. *)
Theorem get_models_lists_checkpoints (listing : option (list string)) :
  (get_models listing).2 = Some (default [] listing) ∧
  (get_models listing).1 `sublist_of` default [] listing ∧
  ∀ file, file ∈ (get_models listing).1 ↔
          file ∈ default [] listing ∧
          ∃ stem, file = stem ++ ".ckpt" ∨ file = stem ++ ".pth".
Proof.
  unfold get_models. simpl. split; [done|]. split; [apply sublist_filter|].
  intros file. rewrite list_elem_of_filter, is_model_file_spec. tauto.
Qed.

Lemma get_models_lists_checkpoints_witness :
  let listing := Some ["a.pth"; "notes.txt"; ".pth"; "c.ckpt"; "a.pth.bak"] in
  ("c.ckpt" ∈ (get_models listing).1) ∧
  ("a.pth.bak" ∉ (get_models listing).1) ∧
  (get_models listing).1 = ["a.pth"; ".pth"; "c.ckpt"] ∧
  get_models None = ([], Some []).
Proof.
  intros listing.
  destruct (get_models_lists_checkpoints listing) as (_ & _ & Hiff).
  split; [|split; [|split; vm_refl]].
  - apply Hiff. split; [by repeat constructor|]. exists "c". by left.
  - intros [_ [stem [Hs|Hs]]]%Hiff.
    + apply (f_equal (fun s => endswith s ".ckpt")) in Hs.
      rewrite (proj2 (endswith_spec (stem ++ ".ckpt") ".ckpt")) in Hs by by exists stem.
      discriminate Hs.
    + apply (f_equal (fun s => endswith s ".pth")) in Hs.
      rewrite (proj2 (endswith_spec (stem ++ ".pth") ".pth")) in Hs by by exists stem.
      discriminate Hs.
Defined.

(** ** The model name without its extension *)

Lemma rfind_from_app (c : ascii) (a b : string) : ∀ (i last : Z),
  rfind_from c (a ++ b) i last
    = rfind_from c b (i + Z.of_nat (String.length a)) (rfind_from c a i last).
Proof.
  induction a as [|x a IH]; intros i last.
  - simpl. by rewrite Z.add_0_r.
  - rewrite append_cons. simpl rfind_from at 1. rewrite IH. simpl.
    f_equal. lia.
Qed.

Lemma rfind_from_no_sep (s : string) : ∀ (i last : Z),
  has_sep s = false → rfind_from sep s i last = last.
Proof.
  induction s as [|x s IH]; intros i last; simpl; [done|].
  intros [Hx Hs]%orb_false_elim. by rewrite Hx, IH.
Qed.

Lemma rfind_from_no_dot (s : string) : ∀ (i last : Z),
  has_dot s = false → rfind_from extsep s i last = last.
Proof.
  induction s as [|x s IH]; intros i last; simpl; [done|].
  intros [Hx Hs]%orb_false_elim. by rewrite Hx, IH.
Qed.

Lemma get_app (pre : string) (c : ascii) (rest : string) :
  String.get (String.length pre) (pre ++ String c rest) = Some c.
Proof. induction pre as [|x pre IH]; [done|]. by rewrite append_cons. Qed.

Lemma name_before_dot_app (s : string) : ∀ (pre t : string),
  name_before_dot (pre ++ s ++ t) (String.length pre) (String.length s)
    = has_non_dot s.
Proof.
  induction s as [|c s IH]; intros pre t; [done|].
  rewrite append_cons. simpl. rewrite get_app.
  destruct (Ascii.eqb c extsep) eqn:Hc; simpl; [|done].
  specialize (IH (pre ++ String c "") t).
  rewrite length_append in IH. simpl in IH.
  replace (String.length pre + 1) with (S (String.length pre)) in IH by lia.
  rewrite <- IH. f_equal. by rewrite string_app_assoc.
Qed.

Lemma splitext_stem (stem rest : string) :
  has_sep stem = false → has_sep rest = false → has_dot rest = false →
  os_path_splitext (stem ++ String extsep rest) =
    if has_non_dot stem then (stem, String extsep rest)
    else (stem ++ String extsep rest, "").
Proof.
  intros Hs Hrs Hrd. unfold os_path_splitext, rfind.
  rewrite !rfind_from_app. simpl.
  rewrite (rfind_from_no_sep stem) by done.
  rewrite (rfind_from_no_sep rest) by done.
  rewrite (rfind_from_no_dot rest) by done.
  replace (0 + Z.of_nat (String.length stem))%Z with (Z.of_nat (String.length stem))
    by lia.
  assert (Hlt : (-1 <? Z.of_nat (String.length stem))%Z = true)
    by (apply Z.ltb_lt; lia).
  rewrite Hlt.
  replace (Z.to_nat (-1 + 1)) with 0 by done.
  replace (Z.to_nat (Z.of_nat (String.length stem) - (-1 + 1)))
    with (String.length stem) by lia.
  pose proof (name_before_dot_app stem "" (String extsep rest)) as Hnb.
  change ("" ++ stem ++ String extsep rest) with (stem ++ String extsep rest) in Hnb.
  change (String.length "") with 0 in Hnb.
  rewrite Hnb. destruct (has_non_dot stem); simpl andb; cbv iota; [|done].
  by rewrite Nat2Z.id, slice_to_app, slice_from_app.
Qed.

Lemma has_sep_starts (s : string) : has_sep s = false → starts_with_sep s = false.
Proof. destruct s as [|c s]; simpl; [done|]. by intros [? _]%orb_false_elim. Qed.

(** X16.  For a model file [<stem>.pth] or [<stem>.ckpt] whose stem holds a
    character other than the dot, the index and the vectors are looked up
    under the stem: [checkpoints/<stem>_index/<stem>.<speaker>.index] when
    that path exists and [checkpoints/<stem>.index] otherwise, and the same
    with [.big.npy]; dots inside the stem stay.  A file named by dots and
    the extension alone (as [.pth], which [get_models] lists) keeps its
    whole name as base name. *)
Theorem model_files_share_stem (W : World) (self : VC_MODEL) (stem ext : string)
    (speaker_id : Z) :
  model_name self = stem ++ ext →
  ext = ".pth" ∨ ext = ".ckpt" →
  has_sep stem = false →
  let basename := if has_non_dot stem then stem else stem ++ ext in
  let root := dir_prefix (MODELS_DIR W) in
  let speaker_path e :=
    root ++ "checkpoints/" ++ basename ++ "_index/" ++ basename ++ "."
      ++ str_of_int speaker_id ++ e in
  (os_path_splitext (model_name self)).1 = basename ∧
  get_index_path W self speaker_id =
    (if os_path_exists W (speaker_path ".index") then speaker_path ".index"
     else root ++ "checkpoints/" ++ basename ++ ".index") ∧
  get_big_npy_path W self speaker_id =
    (if os_path_exists W (speaker_path ".big.npy") then speaker_path ".big.npy"
     else root ++ "checkpoints/" ++ basename ++ ".big.npy").
Proof.
  intros Hname Hext Hs basename root speaker_path.
  assert (Hb : (os_path_splitext (model_name self)).1 = basename).
  { rewrite Hname. unfold basename.
    destruct Hext as [-> | ->].
    - change ".pth" with (String extsep "pth").
      rewrite splitext_stem by done. by destruct (has_non_dot stem).
    - change ".ckpt" with (String extsep "ckpt").
      rewrite splitext_stem by done. by destruct (has_non_dot stem). }
  assert (Hrel : starts_with_sep (model_name self) = false).
  { rewrite Hname. apply has_sep_starts. rewrite has_sep_app, Hs.
    by destruct Hext as [-> | ->]. }
  destruct (index_paths_explicit W self speaker_id ".index" Hrel eq_refl) as [Hi1 Hi2].
  destruct (index_paths_explicit W self speaker_id ".big.npy" Hrel eq_refl) as [Hb1 Hb2].
  cbv zeta in Hi1, Hi2, Hb1, Hb2. rewrite Hb in Hi1, Hi2, Hb1, Hb2.
  split; [done|].
  unfold get_index_path, get_big_npy_path. cbv zeta. rewrite Hb.
  by rewrite Hi1, Hi2, Hb1, Hb2.
Qed.

Lemma model_files_share_stem_witness :
  (os_path_splitext "my.voice.v2.pth").1 = "my.voice.v2" ∧
  get_index_path example_world (named_session "my.voice.v2.pth") 3
    = "models/checkpoints/my.voice.v2.index" ∧
  get_big_npy_path example_world (named_session ".pth") 0
    = "models/checkpoints/.pth.big.npy".
Proof.
  destruct (model_files_share_stem example_world (named_session "my.voice.v2.pth")
              "my.voice.v2" ".pth" 3) as (H1 & H2 & _); [done | by left | done |].
  destruct (model_files_share_stem example_world (named_session ".pth")
              "" ".pth" 0) as (_ & _ & H3); [done | by left | done |].
  split; [exact H1|]. split; [rewrite H2 | rewrite H3]; vm_refl.
Defined.

(** ** Properties of [download_models] *)

Lemma os_path_join_pretrained root x :
  starts_with_sep x = false →
  os_path_join root ["pretrained"; x] = dir_prefix root ++ "pretrained/" ++ x.
Proof.
  intros Hx. unfold os_path_join. simpl.
  rewrite (join_step_relative root "pretrained") by done.
  rewrite join_step_under; [by rewrite string_app_assoc | | | done].
  - apply String.eqb_neq. by apply string_app_nonempty.
  - by rewrite ends_with_sep_app.
Qed.

Lemma bind_skip {A B} (P : A → Prop) `{∀ x, Decision (P x)} (f : A → B)
    (l : list A) :
  (x ← l; if bool_decide (P x) then [] else [f x]) = f <$> filter (λ x, ¬ P x) l.
Proof.
  induction l as [|x l IH]; [done|].
  rewrite bind_cons, filter_cons, IH.
  destruct (decide (P x)) as [HP|HP].
  - rewrite bool_decide_eq_true_2 by done. by rewrite decide_False by tauto.
  - rewrite bool_decide_eq_false_2 by done. by rewrite decide_True by done.
Qed.

Lemma filter_not_nil {A} (P : A → Prop) `{∀ x, Decision (P x)} (l : list A) :
  filter (λ x, ¬ P x) l = [] ↔ ∀ x, x ∈ l → P x.
Proof.
  induction l as [|x l IH].
  - split; [|done]. intros _ y Hy. by apply elem_of_nil in Hy.
  - rewrite filter_cons. destruct (decide (¬ P x)) as [HP|HP].
    + split; [done|]. intros Hall. destruct HP. apply Hall. by left.
    + rewrite IH. split.
      * intros Hall y [->|Hy]%elem_of_cons; [by apply dec_stable | by apply Hall].
      * intros Hall y Hy. apply Hall. by right.
Qed.

Lemma pretrained_names_NoDup : NoDup pretrained_names.
Proof. apply (bool_decide_unpack _). vm_compute. exact I. Qed.

Lemma download_tasks_names (W : World) (files : gset string) :
  download_tasks W files =
    (λ name, Fetch (pretrained_base ++ name) (pretrained_out W name))
      <$> filter (λ name, pretrained_out W name ∉ files) pretrained_names.
Proof.
  rewrite <- (bind_skip (λ name, pretrained_out W name ∈ files)).
  unfold download_tasks, pretrained_templates, pretrained_rates, pretrained_names.
  rewrite !bind_cons. cbv beta zeta. cbn [mbind list_bind].
  rewrite !app_nil_r, <- !app_assoc.
  rewrite !os_path_join_pretrained by done.
  reflexivity.
Qed.

(** X17.  The first loop of [download_models] asks for the twelve
    pretrained networks [D], [G], [f0D] and [f0G] at 32k, 40k and 48k that
    are not yet under [pretrained/] in the models directory, each from
    the URL that ends in its file name, in the order of the two loops.
    No two requests write to the same file, a file that exists is never
    fetched again, and when all twelve exist no request is made. *)
Theorem pretrained_downloads (W : World) (files : gset string) :
  download_tasks W files =
    (λ name, Fetch (pretrained_base ++ name) (pretrained_out W name))
      <$> filter (λ name, pretrained_out W name ∉ files) pretrained_names ∧
  NoDup (fetch_out <$> download_tasks W files) ∧
  (∀ t, t ∈ download_tasks W files → fetch_out t ∉ files) ∧
  (download_tasks W files = [] ↔
     ∀ name, name ∈ pretrained_names → pretrained_out W name ∈ files).
Proof.
  rewrite download_tasks_names. split; [done|]. split; [|split].
  - rewrite <- list_fmap_compose.
    apply NoDup_fmap_2_strong; [|apply NoDup_filter, pretrained_names_NoDup].
    intros a b _ _ Heq. simpl in Heq. unfold pretrained_out in Heq.
    by repeat apply (inj (String.append _)) in Heq.
  - intros t (name & -> & [Hout _]%list_elem_of_filter)%list_elem_of_fmap. done.
  - rewrite <- filter_not_nil. split; [apply fmap_nil_inv | by intros ->].
Qed.

Lemma pretrained_downloads_witness :
  let present := list_to_set (pretrained_out example_world <$> pretrained_names) in
  let partial := list_to_set (pretrained_out example_world <$> drop 2 pretrained_names) in
  download_tasks example_world present = [] ∧
  download_tasks example_world partial =
    [ Fetch "https://huggingface.co/ddPn08/rvc_pretrained/resolve/main/D32k.pth"
        "models/pretrained/D32k.pth";
      Fetch "https://huggingface.co/ddPn08/rvc_pretrained/resolve/main/D40k.pth"
        "models/pretrained/D40k.pth" ].
Proof.
  intros present partial. split.
  - destruct (pretrained_downloads example_world present) as (_ & _ & _ & Hnone).
    apply Hnone. intros name Hin.
    apply elem_of_list_to_set, list_elem_of_fmap. by exists name.
  - destruct (pretrained_downloads example_world partial) as (-> & _).
    vm_refl.
Defined.

Lemma download_embedders_again (W : World) failing urls : ∀ files,
  (∀ url, url ∈ urls → embedder_out W url ∈ files) →
  download_embedders W failing urls files = (None, files, []).
Proof.
  induction urls as [|url urls IH]; intros files Hall; [done|]. simpl.
  rewrite bool_decide_eq_true_2 by (apply Hall; by left).
  apply IH. intros u Hu. apply Hall. by right.
Qed.

Lemma download_embedders_spec (W : World) failing urls : ∀ files r files' done,
  download_embedders W failing urls files = (r, files', done) →
  files ⊆ files' ∧
  (∀ t, t ∈ done →
     fetch_url t ∈ urls ∧ fetch_out t = embedder_out W (fetch_url t) ∧
     fetch_out t ∉ files) ∧
  (r = None → ∀ url, url ∈ urls → embedder_out W url ∈ files') ∧
  (∀ e, r = Some e → ∃ url, last done = Some (Fetch url (embedder_out W url)) ∧
                            failing url = Some e).
Proof.
  induction urls as [|url urls IH]; intros files r files' done Hrun; simpl in Hrun.
  - simplify_eq. split; [done|]. split; [|split]; [| |done].
    + intros t Ht. by apply elem_of_nil in Ht.
    + intros _ u Hu. by apply elem_of_nil in Hu.
  - case_bool_decide as Hin.
    + destruct (IH _ _ _ _ Hrun) as (Hsub & Hdone & Hok & Hfail).
      split; [done|]. split; [|split]; [| |done].
      * intros t Ht. destruct (Hdone t Ht) as (? & ? & ?).
        split; [by right | done].
      * intros Hr u [->|Hu]%elem_of_cons; [by apply Hsub | by apply Hok].
    + destruct (failing url) as [e|] eqn:Hf.
      * simplify_eq. split; [done|]. split; [|split].
        -- intros t ->%list_elem_of_singleton. simpl. split; [by left | done].
        -- done.
        -- intros e' [= <-]. by exists url.
      * destruct (download_embedders W failing urls ({[embedder_out W url]} ∪ files))
          as [[r1 files1] done1] eqn:Hrest.
        simplify_eq. destruct (IH _ _ _ _ Hrest) as (Hsub & Hdone & Hok & Hfail).
        split; [etrans; [apply union_subseteq_r | exact Hsub]|]. split; [|split].
        -- intros t [->|Ht]%elem_of_cons; [simpl; split; [by left | done]|].
           destruct (Hdone t Ht) as (Hu & Ho & Hn).
           split; [by right|]. split; [done|].
           intros Hc. apply Hn, elem_of_union. by right.
        -- intros Hr u [->|Hu]%elem_of_cons; [|by apply Hok].
           apply Hsub, elem_of_union. left. by apply elem_of_singleton.
        -- intros e He. destruct (Hfail e He) as (u & Hlast & Hu).
           exists u. split; [|done]. destruct done1; [done|]. exact Hlast.
Qed.

Lemma embedder_out_registry (W : World) (file name : string) :
  (file, name) ∈ registry_files →
  ∃ url, url ∈ embedder_urls ∧ embedder_out W url = os_path_join (MODELS_DIR W) [file].
Proof.
  unfold registry_files.
  intros [Heq|[Heq|Hnil%elem_of_nil]%elem_of_cons]%elem_of_cons; [| |done];
    injection Heq as -> ->.
  - eexists. split; [by left|]. reflexivity.
  - eexists. split; [right; by left|]. reflexivity.
Qed.

(** X18.  The last loop of [download_models] asks for an embedder file only
    when it is missing from the models directory, and puts it where
    [load_embedder] reads it.  When the loop ends without an exception,
    the file of every supported embedder exists and running the loop again
    asks for nothing; when a download raises, the loop stops there with
    that exception.  Files are only added. *)
Theorem embedder_downloads (W : World) (failing : string → option exn)
    (files files' : gset string) (r : option exn) (done : list fetch) :
  download_embedders W failing embedder_urls files = (r, files', done) →
  files ⊆ files' ∧
  (∀ t, t ∈ done →
     fetch_url t ∈ embedder_urls ∧
     (∃ file name, (file, name) ∈ registry_files ∧
                   fetch_out t = os_path_join (MODELS_DIR W) [file]) ∧
     fetch_out t ∉ files) ∧
  (r = None →
     (∀ file name, (file, name) ∈ registry_files →
        os_path_join (MODELS_DIR W) [file] ∈ files') ∧
     download_embedders W failing embedder_urls files' = (None, files', [])) ∧
  (∀ e, r = Some e →
     ∃ url, last done = Some (Fetch url (embedder_out W url)) ∧
            failing url = Some e).
Proof.
  intros Hrun.
  destruct (download_embedders_spec W failing _ _ _ _ _ Hrun)
    as (Hsub & Hdone & Hok & Hfail).
  split; [done|]. split; [|split]; [| |done].
  - intros t Ht. destruct (Hdone t Ht) as (Hu & Hout & Hnew).
    split; [done|]. split; [|done]. rewrite Hout.
    unfold embedder_urls in Hu.
    apply elem_of_cons in Hu as [->|Hu];
      [|apply elem_of_cons in Hu as [->|Hu%elem_of_nil]; [|done]].
    + exists "hubert_base.pt", "hubert_base". split; [by left | reflexivity].
    + exists "checkpoint_best_legacy_500.pt", "contentvec".
      split; [right; by left | reflexivity].
  - intros Hr. specialize (Hok Hr). split.
    + intros file name (url & Hu & <-)%(embedder_out_registry W). by apply Hok.
    + by apply download_embedders_again.
Qed.

Lemma embedder_downloads_witness :
  let files : gset string := {[ "models/hubert_base.pt" ]} in
  let run := download_embedders example_world (λ _, None) embedder_urls files in
  run.2 = [ Fetch "https://huggingface.co/innnky/contentvec/resolve/main/checkpoint_best_legacy_500.pt"
              "models/checkpoint_best_legacy_500.pt" ] ∧
  "models/checkpoint_best_legacy_500.pt" ∈ run.1.2 ∧
  download_embedders example_world (λ _, None) embedder_urls run.1.2
    = (None, run.1.2, []).
Proof.
  intros files run.
  assert (Hrun : run = (None, run.1.2, run.2)) by vm_refl.
  destruct (embedder_downloads example_world (λ _, None) files _ _ _ Hrun)
    as (_ & _ & Hok & _).
  destruct (Hok eq_refl) as [Hall Hagain].
  split; [vm_refl|]. split; [|exact Hagain].
  apply (Hall "checkpoint_best_legacy_500.pt" "contentvec"). right. by left.
Defined.
